(** * The JOS kernel monitor (kern/monitor.c)

    A shallow embedding of the command-line monitor of the teaching kernel:
    the stack unwinder [mon_backtrace], the hexadecimal address parser
    [hexaddr2decaddr], the address translator [showmappings] and its range
    sweep [mon_showmappings], the tokenizer and dispatcher [runcmd] and the
    read-eval-print loop [monitor].

    Conventions of the embedding.
    - A 32-bit machine word is a [Z]; every operation writes its wrap-around
      out ([wrap32] for [uint32_t], [wrap_int] for [int]).
    - Kernel memory is a partial map from byte addresses to bytes, read in
      little-endian order as on the i386.  An address with no byte is not
      mapped: a read of a word there is a page fault, which ends the run.
    - A [char *] is the memory from the pointer on, a [list ascii]; the string
      it denotes ends at the first NUL, or at the end of the list.
    - [cprintf] is out of scope: the output of a function is the list of the
      [cprintf] calls it makes, each with its format string (spelled as in
      the source) and its arguments.
    - A loop that may run forever takes a fuel, the number of iterations it
      may still make; [More out] is a run that is still going when the fuel
      is spent, having printed [out], and [Fault out] one that a page fault
      ended, having printed [out]. *)

From Stdlib Require Import ZArith Ascii String List Lia Bool.
From stdpp Require Import base numbers list.
Import ListNotations.
Local Open Scope Z_scope.

(** ** Machine arithmetic *)

Module Word.

(** Conversion to [uint32_t]. *)
Definition wrap32 (z : Z) : Z := z mod 2 ^ 32.

(** Conversion to [int] (two's complement, 32 bits). *)
Definition wrap_int (z : Z) : Z := (z + 2 ^ 31) mod 2 ^ 32 - 2 ^ 31.

Definition add32 (a b : Z) : Z := wrap32 (a + b).
Definition sub32 (a b : Z) : Z := wrap32 (a - b).

(** [int] addition. *)
Definition add_int (a b : Z) : Z := wrap_int (a + b).

(** [a << n] on [int].  The i386 shift instruction takes the count modulo
    32; counts below 32 are the only ones C defines. *)
Definition shl_int (a n : Z) : Z := wrap_int (Z.shiftl a (n mod 32)).

End Word.
Export Word.

(** ** Memory *)

(** Kernel memory: the byte at every address that is mapped. *)
Definition memory : Type := Z -> option Byte.byte.

Definition load8 (m : memory) (a : Z) : option Z :=
  match m (wrap32 a) with
  | Some b => Some (Z.of_N (Byte.to_N b))
  | None => None
  end.

(** [*(uint32_t * ) a]: the four bytes from [a] on, or [None] where one of
    them is not mapped and the read is a page fault. *)
Definition load32 (m : memory) (a : Z) : option Z :=
  match load8 m a, load8 m (a + 1), load8 m (a + 2), load8 m (a + 3) with
  | Some b0, Some b1, Some b2, Some b3 =>
      Some (b0 + Z.shiftl b1 8 + Z.shiftl b2 16 + Z.shiftl b3 24)
  | _, _, _, _ => None
  end.

Definition byte_of_Z (v : Z) : Byte.byte :=
  match Byte.of_N (Z.to_N (v mod 256)) with
  | Some b => b
  | None => Byte.x00
  end.

Definition store8 (m : memory) (a v : Z) : memory :=
  fun a' => if a' =? wrap32 a then Some (byte_of_Z v) else m a'.

Definition store32 (m : memory) (a v : Z) : memory :=
  store8 (store8 (store8 (store8 m a v) (a + 1) (Z.shiftr v 8))
                 (a + 2) (Z.shiftr v 16)) (a + 3) (Z.shiftr v 24).

(** Every address mapped, and zero. *)
Definition zero_memory : memory := fun _ => Some Byte.x00.

(** ** C strings *)

Definition NUL : ascii := Ascii.zero.

Definition is_nul (c : ascii) : bool := Ascii.eqb c NUL.

(** The value of a [char] (signed on the i386). *)
Definition char_val (c : ascii) : Z :=
  let n := Z.of_N (N_of_ascii c) in
  if n <? 128 then n else n - 256.

Definition chars (s : string) : list ascii := list_ascii_of_string s.

(** [*p]: past the end of the list is the terminator. *)
Definition deref (p : list ascii) : ascii :=
  match p with
  | [] => NUL
  | c :: _ => c
  end.

(** The string a pointer denotes: the characters before the first NUL. *)
Fixpoint c_str (p : list ascii) : list ascii :=
  match p with
  | [] => []
  | c :: p' => if is_nul c then [] else c :: c_str p'
  end.

(** Modelled from the spec: lib/string.c is not among the sources.  [strlen]
    counts the characters before the terminator. *)
Fixpoint strlen (p : list ascii) : nat :=
  match p with
  | [] => 0%nat
  | c :: p' => if is_nul c then 0%nat else S (strlen p')
  end.

(** Modelled from the spec: lib/string.c is not among the sources.
    [strchr s c != NULL]: [c] is one of the characters of [s], the
    terminator of [s] counting as one of them. *)
Definition strchr (s : list ascii) (c : ascii) : bool :=
  is_nul c || existsb (Ascii.eqb c) (c_str s).

(** Modelled from the spec: lib/string.c is not among the sources.
    [strcmp p q] is an exact, case-sensitive comparison: 0 on equal strings,
    and otherwise the difference of the first characters that differ, as
    unsigned chars. *)
Fixpoint strcmp (p q : list ascii) : Z :=
  match p with
  | c :: p' =>
      if negb (is_nul c) && Ascii.eqb c (deref q)
      then strcmp p' (tl q)
      else Z.of_N (N_of_ascii c) - Z.of_N (N_of_ascii (deref q))
  | [] => 0 - Z.of_N (N_of_ascii (deref q))
  end.

(** ** Output *)

Inductive arg : Type :=
| AInt (v : Z)
| AStr (s : list ascii).

Inductive output : Type :=
| Cprintf (fmt : string) (args : list arg)
| Print_trapframe (tf : Z).

(** The outcome of a run: it returned [a], or it is still going when the
    fuel is spent, or it stopped at a page fault; with what it printed. *)
Inductive result (A : Type) : Type :=
| Done (out : list output) (a : A)
| More (out : list output)
| Fault (out : list output).
Arguments Done {A} out a.
Arguments More {A} out.
Arguments Fault {A} out.

(** Output made before a run. *)
Definition emit {A : Type} (o : list output) (r : result A) : result A :=
  match r with
  | Done out a => Done (o ++ out) a
  | More out => More (o ++ out)
  | Fault out => Fault (o ++ out)
  end.

Definition printed {A : Type} (r : result A) : list output :=
  match r with
  | Done out _ => out
  | More out => out
  | Fault out => out
  end.

(** One run, then another with what the first returned; a run that did not
    return has no sequel. *)
Definition bind {A B : Type} (r : result A) (k : A -> result B) : result B :=
  match r with
  | Done out a => emit out (k a)
  | More out => More out
  | Fault out => Fault out
  end.

Notation "x <- r ;; k" := (bind r (fun x => k))
  (at level 100, r at next level, right associativity).

(** A call of [cprintf]. *)
Definition print (o : output) : result unit := Done [o] tt.

(** A read of a word of memory. *)
Definition read (m : memory) (a : Z) : result Z :=
  match load32 m a with
  | Some v => Done [] v
  | None => Fault []
  end.


(** ** The kernel around the monitor *)

(** [struct Eipdebuginfo] (kern/kdebug.h), the fields the monitor reads. *)
Record Eipdebuginfo : Type := {
  eip_file : string;
  eip_line : Z;
  eip_fn_name : string;
  eip_fn_namelen : Z;
  eip_fn_addr : Z
}.

(** What the monitor takes from the rest of the kernel. *)
Record Kernel : Type := {
  (** linker symbols *)
  sym_start : Z;
  sym_entry : Z;
  sym_etext : Z;
  sym_edata : Z;
  sym_end : Z;
  (** inc/memlayout.h, inc/mmu.h, inc/types.h *)
  KERNBASE : Z;
  PGSIZE : Z;
  PTE_FLAGS : Z;
  ROUNDUP : Z -> Z -> Z;
  (** kern/kdebug.c: the debug information of an instruction address *)
  debuginfo_eip : Z -> Eipdebuginfo;
  (** kern/pmap.c: [page_lookup(kern_pgdir, va, &pte)], the entry it
      stores when it finds a page *)
  page_lookup : Z -> option Z;
  (** inc/x86.h: the frame-pointer register *)
  read_ebp : Z;
  (** the memory the frame pointers point into *)
  mem : memory
}.

Section Monitor.

Variable K : Kernel.

(** *** backtrace *)

(** [for (i = 0; i < 5; i++) cprintf("%08x ", *(++ptr));] *)
Fixpoint backtrace_args (n : nat) (ptr : Z) : result unit :=
  match n with
  | O => Done [] tt
  | S n' =>
      let ptr := add32 ptr 4 in
      v <- read (mem K) ptr ;;
      _ <- print (Cprintf "%08x " [AInt v]) ;;
      backtrace_args n' ptr
  end.

(** The body of the [while] loop, up to the update of [val_ebp]. *)
Definition backtrace_frame (val_ebp : Z) : result unit :=
  let ptr := val_ebp in
  let ptr := add32 ptr 4 in
  eip <- read (mem K) ptr ;;
  _ <- print (Cprintf "ebp %x eip %x args " [AInt val_ebp; AInt eip]) ;;
  addr <- read (mem K) ptr ;;
  let info := debuginfo_eip K addr in
  _ <- backtrace_args 5 ptr ;;
  _ <- print (Cprintf "\n" []) ;;
  print (Cprintf "%s:%d: %.*s+%u\n"
           [AStr (chars (eip_file info)); AInt (eip_line info);
            AInt (eip_fn_namelen info); AStr (chars (eip_fn_name info));
            AInt (sub32 eip (eip_fn_addr info))]).

(** [while (val_ebp != 0) { ...; val_ebp = *((uint32_t* )val_ebp); }] *)
Fixpoint backtrace_loop (fuel : nat) (val_ebp : Z) : result Z :=
  if val_ebp =? 0 then Done [] 0
  else
    match fuel with
    | O => More []
    | S fuel' =>
        _ <- backtrace_frame val_ebp ;;
        next <- read (mem K) val_ebp ;;
        backtrace_loop fuel' next
    end.

Definition mon_backtrace (fuel : nat) (argc : Z) (argv : list (list ascii))
    (tf : Z) : result Z :=
  _ <- print (Cprintf "Stack backtrace:\n" []) ;;
  backtrace_loop fuel (wrap32 (read_ebp K)).


(** *** showmappings *)

Definition char2int (c : ascii) : Z :=
  let c := char_val c in
  if (48 <=? c) && (c <=? 57) then c - 48
  else if (char_val "A" <=? c) && (c <=? char_val "F") then c - 55
  else if (char_val "a" <=? c) && (c <=? char_val "f") then c - 87
  else 0.

(** [for (i = 0; i < len; i++, tempret = 0)], with [n] iterations to go. *)
Fixpoint hexaddr2decaddr_loop (n : nat) (newaddr : list ascii)
    (len i : nat) (result : Z) : Z :=
  match n with
  | O => result
  | S n' =>
      let tempret := char2int (nth i newaddr NUL) in
      let tempret := shl_int tempret ((Z.of_nat len - Z.of_nat i - 1) * 4) in
      hexaddr2decaddr_loop n' newaddr len (S i) (add_int result tempret)
  end.

(** [hexaddr + 2] skips two characters of the memory at [hexaddr], whatever
    they are. *)
Definition hexaddr2decaddr (hexaddr : list ascii) : Z :=
  let result := 0 in
  let newaddr := drop 2 hexaddr in
  let len := strlen newaddr in
  hexaddr2decaddr_loop len newaddr len 0 result.

(** Modelled from the spec: inc/mmu.h is not among the sources.  [PTE_ADDR]
    masks a page-table entry to its frame-address bits: the permission and
    flag bits, [PTE_FLAGS], are cleared. *)
Definition PTE_ADDR (pte : Z) : Z := Z.land pte (Z.lnot (PTE_FLAGS K)).

Definition showmappings (vaddr : Z) : result Z :=
  match page_lookup K vaddr with
  | Some pte_entry =>
      let paddr := PTE_ADDR pte_entry in
      Done [Cprintf "va: %08p    " [AInt vaddr];
            Cprintf "pa: %08p\n" [AInt paddr]] 0
  | None =>
      Done [Cprintf "No physical page mapping at %08p\n" [AInt vaddr]] 0
  end.

(** [while (low <= high) { showmappings(low); low += PGSIZE; }] *)
Fixpoint showmappings_loop (fuel : nat) (low high : Z) : result Z :=
  if low <=? high then
    match fuel with
    | O => More []
    | S fuel' =>
        emit (printed (showmappings low))
             (showmappings_loop fuel' (add32 low (PGSIZE K)) high)
    end
  else Done [] 0.

Definition mon_showmappings (fuel : nat) (argc : Z)
    (argv : list (list ascii)) (tf : Z) : result Z :=
  if argc =? 2 then
    emit (printed (showmappings (wrap32 (hexaddr2decaddr (nth 1 argv [])))))
         (Done [] 0)
  else if argc =? 3 then
    let lower_addr := nth 1 argv [] in
    let upper_addr := nth 2 argv [] in
    let low := wrap32 (hexaddr2decaddr lower_addr) in
    let high := wrap32 (hexaddr2decaddr upper_addr) in
    showmappings_loop fuel low high
  else Done [] 0.

(** *** The command table *)

(** The functions a [struct Command] can point to. *)
Inductive handler : Type :=
| Mon_help
| Mon_kerninfo
| Mon_backtrace
| Mon_showmappings.

Record Command : Type := {
  name : string;
  desc : string;
  func : handler
}.

Definition commands : list Command := [
  {| name := "help"; desc := "Display this list of commands";
     func := Mon_help |};
  {| name := "kerninfo"; desc := "Display information about the kernel";
     func := Mon_kerninfo |};
  {| name := "backtrace"; desc := "Display information of the kernel stack";
     func := Mon_backtrace |};
  {| name := "showmappings";
     desc := "Show physical address mappings corresponding to specific virtual addresses";
     func := Mon_showmappings |}
].

Definition mon_help (argc : Z) (argv : list (list ascii)) (tf : Z)
    : result Z :=
  Done (map (fun c => Cprintf "%s - %s\n"
                        [AStr (chars (name c)); AStr (chars (desc c))])
            commands) 0.

Definition mon_kerninfo (argc : Z) (argv : list (list ascii)) (tf : Z)
    : result Z :=
  Done [Cprintf "Special kernel symbols:\n" [];
        Cprintf "  _start                  %08x (phys)\n"
          [AInt (sym_start K)];
        Cprintf "  entry  %08x (virt)  %08x (phys)\n"
          [AInt (sym_entry K); AInt (sub32 (sym_entry K) (KERNBASE K))];
        Cprintf "  etext  %08x (virt)  %08x (phys)\n"
          [AInt (sym_etext K); AInt (sub32 (sym_etext K) (KERNBASE K))];
        Cprintf "  edata  %08x (virt)  %08x (phys)\n"
          [AInt (sym_edata K); AInt (sub32 (sym_edata K) (KERNBASE K))];
        Cprintf "  end    %08x (virt)  %08x (phys)\n"
          [AInt (sym_end K); AInt (sub32 (sym_end K) (KERNBASE K))];
        Cprintf "Kernel executable memory footprint: %dKB\n"
          [AInt (Z.quot (ROUNDUP K (wrap_int (sym_end K - sym_entry K)) 1024)
                        1024)]] 0.

(** [commands[i].func(argc, argv, tf)] *)
Definition call (f : handler) (fuel : nat) (argc : Z)
    (argv : list (list ascii)) (tf : Z) : result Z :=
  match f with
  | Mon_help => mon_help argc argv tf
  | Mon_kerninfo => mon_kerninfo argc argv tf
  | Mon_backtrace => mon_backtrace fuel argc argv tf
  | Mon_showmappings => mon_showmappings fuel argc argv tf
  end.

(** *** The command interpreter *)

Definition WHITESPACE : list ascii := ["009"; "013"; "010"; " "]%char.
Definition MAXARGS : Z := 16.

(** The command buffer is the line [line], and [buf] an offset into it. *)
Definition peek (line : list ascii) (buf : nat) : ascii :=
  deref (drop buf line).

(** [while ( *buf && strchr(WHITESPACE, *buf)) *buf++ = 0;] with [n]
    characters to the end of the buffer. *)
Fixpoint gobble (n : nat) (line : list ascii) (buf : nat)
    : list ascii * nat :=
  match n with
  | O => (line, buf)
  | S n' =>
      if negb (is_nul (peek line buf)) && strchr WHITESPACE (peek line buf)
      then gobble n' (<[buf := NUL]> line) (S buf)
      else (line, buf)
  end.

(** [while ( *buf && !strchr(WHITESPACE, *buf)) buf++;] *)
Fixpoint scan_arg (n : nat) (line : list ascii) (buf : nat) : nat :=
  match n with
  | O => buf
  | S n' =>
      if negb (is_nul (peek line buf))
         && negb (strchr WHITESPACE (peek line buf))
      then scan_arg n' line (S buf)
      else buf
  end.

Inductive parsed : Type :=
| Too_many
| Args (line : list ascii) (argv : list nat).

(** The [while (1)] loop of [runcmd]; [argv] holds the [argc] pointers
    saved so far.  Every round but the last moves [buf] forward, so the
    length of the line bounds the rounds; [None] is a loop cut short. *)
Fixpoint parse_loop (n : nat) (line : list ascii) (buf : nat)
    (argv : list nat) : option parsed :=
  match n with
  | O => None
  | S n' =>
      let '(line, buf) := gobble (length line - buf) line buf in
      if is_nul (peek line buf) then Some (Args line argv)
      else if Z.of_nat (length argv) =? MAXARGS - 1 then Some Too_many
      else
        let argv := argv ++ [buf] in
        let buf := scan_arg (length line - buf) line buf in
        parse_loop n' line buf argv
  end.

Definition parse (line : list ascii) : option parsed :=
  parse_loop (S (length line)) line 0 [].

(** [for (i = 0; i < ARRAY_SIZE(commands); i++)] and what follows it. *)
Fixpoint lookup_command (invoke : handler -> nat -> Z -> list (list ascii)
                                  -> Z -> result Z)
    (cmds : list Command) (fuel : nat) (argc : Z)
    (argv : list (list ascii)) (tf : Z) : result Z :=
  match cmds with
  | c :: cmds' =>
      if strcmp (nth 0 argv []) (chars (name c)) =? 0
      then invoke (func c) fuel argc argv tf
      else lookup_command invoke cmds' fuel argc argv tf
  | [] =>
      Done [Cprintf "Unknown command '%s'\n" [AStr (c_str (nth 0 argv []))]] 0
  end.

(** [runcmd], with the meaning of the function pointers left open. *)
Definition runcmd_with (invoke : handler -> nat -> Z -> list (list ascii)
                                 -> Z -> result Z)
    (fuel : nat) (buf : list ascii) (tf : Z) : result Z :=
  match parse buf with
  | None => More []
  | Some Too_many =>
      Done [Cprintf "Too many arguments (max %d)\n" [AInt MAXARGS]] 0
  | Some (Args line argv) =>
      let argc := Z.of_nat (length argv) in
      let argv := map (fun p => drop p line) argv in
      if argc =? 0 then Done [] 0
      else lookup_command invoke commands fuel argc argv tf
  end.

Definition runcmd (fuel : nat) (buf : list ascii) (tf : Z) : result Z :=
  runcmd_with call fuel buf tf.

(** The [while (1)] loop of [monitor] over the lines [readline] returns
    ([None] for [NULL]); it is [Done] when a command broke out of it,
    [More] while it waits for the next line or for a command that is still
    going, and [Fault] when a page fault ended a command. *)
Fixpoint monitor_loop (fuel : nat) (input : list (option (list ascii)))
    (tf : Z) : result unit :=
  match input with
  | [] => More []
  | None :: input' => monitor_loop fuel input' tf
  | Some buf :: input' =>
      match runcmd fuel buf tf with
      | More out => More out
      | Fault out => Fault out
      | Done out r =>
          if r <? 0 then Done out tt
          else emit out (monitor_loop fuel input' tf)
      end
  end.

Definition monitor (fuel : nat) (input : list (option (list ascii)))
    (tf : Z) : result unit :=
  emit ([Cprintf "Welcome to the JOS kernel monitor!\n" [];
         Cprintf "Type 'help' for a list of commands.\n" []]
        ++ (if tf =? 0 then [] else [Print_trapframe tf]))
       (monitor_loop fuel input tf).

End Monitor.


(** * Notions the properties are stated with *)

(** ** Stacks *)

(** A frame of the stack: where its frame pointer points, the return address
    one machine word above, and the five words above that one. *)
Record frame : Type := {
  fr_ebp : Z;
  fr_eip : Z;
  fr_args : list Z
}.

(** The [n] words from [ptr] on, where all of them can be read. *)
Fixpoint read_words (m : memory) (ptr : Z) (n : nat) : option (list Z) :=
  match n with
  | O => Some []
  | S n' =>
      match load32 m ptr, read_words m (ptr + 4) n' with
      | Some v, Some vs => Some (v :: vs)
      | _, _ => None
      end
  end.

(** The frame at [fp], where its return address and the five words above
    it can be read. *)
Definition frame_at (m : memory) (fp : Z) : option frame :=
  match load32 m (fp + 4), read_words m (fp + 8) 5 with
  | Some eip, Some args => Some {| fr_ebp := fp; fr_eip := eip; fr_args := args |}
  | _, _ => None
  end.

(** The frames at the frame pointers [fps], where all can be read. *)
Fixpoint frames_at (m : memory) (fps : list Z) : option (list frame) :=
  match fps with
  | [] => Some []
  | fp :: fps' =>
      match frame_at m fp, frames_at m fps' with
      | Some f, Some fs => Some (f :: fs)
      | _, _ => None
      end
  end.

(** [linked m ebp fps]: starting from [ebp], the frame pointers met are
    [fps], innermost first, each non-zero and saved, where it can be read,
    at the address the one before it points to; the last frame saves a zero
    frame pointer. *)
Fixpoint linked (m : memory) (ebp : Z) (fps : list Z) : bool :=
  match fps with
  | [] => ebp =? 0
  | fp :: fps' =>
      (ebp =? fp) && negb (fp =? 0)
      && match load32 m fp with
         | Some next => linked m next fps'
         | None => false
         end
  end.

(** What a backtrace shows of a frame: its frame pointer and return
    address, the five words, and the symbol of the return address with the
    offset into its function. *)
Definition frame_record (K : Kernel) (f : frame) : list output :=
  let info := debuginfo_eip K (fr_eip f) in
  Cprintf "ebp %x eip %x args " [AInt (fr_ebp f); AInt (fr_eip f)]
  :: map (fun v => Cprintf "%08x " [AInt v]) (fr_args f)
  ++ [Cprintf "\n" [];
      Cprintf "%s:%d: %.*s+%u\n"
        [AStr (chars (eip_file info)); AInt (eip_line info);
         AInt (eip_fn_namelen info); AStr (chars (eip_fn_name info));
         AInt ((fr_eip f - eip_fn_addr info) mod 2 ^ 32)]].


(** The frame pointer and return address of every frame line printed. *)
Fixpoint reported_frames (out : list output) : list (Z * Z) :=
  match out with
  | Cprintf "ebp %x eip %x args " [AInt ebp; AInt eip] :: out' =>
      (ebp, eip) :: reported_frames out'
  | _ :: out' => reported_frames out'
  | [] => []
  end.

(** The offset of every symbol line printed. *)
Fixpoint reported_offsets (out : list output) : list Z :=
  match out with
  | Cprintf "%s:%d: %.*s+%u\n" [_; _; _; _; AInt off] :: out' =>
      off :: reported_offsets out'
  | _ :: out' => reported_offsets out'
  | [] => []
  end.

(** A kernel to try the monitor on: 4 KiB pages, twelve flag bits in a
    page-table entry, one page mapped at 0x1000, and the stack in [m] with
    the frame pointer at [ebp]. *)
Definition sample_kernel (ebp : Z) (m : memory) : Kernel := {|
  sym_start := 0x10000c; sym_entry := 0xf010000c; sym_etext := 0xf0101a75;
  sym_edata := 0xf0112300; sym_end := 0xf0112960;
  KERNBASE := 0xf0000000; PGSIZE := 4096; PTE_FLAGS := 0xfff;
  ROUNDUP := fun a n => (a + n - 1) - (a + n - 1) mod n;
  debuginfo_eip := fun a =>
    {| eip_file := "kern/init.c"; eip_line := 24; eip_fn_name := "test_backtrace";
       eip_fn_namelen := 14; eip_fn_addr := Z.land a (Z.lnot 0xff) |};
  page_lookup := fun va => if va =? 0x1000 then Some 0x2007 else None;
  read_ebp := ebp;
  mem := m
|}.

(** Two frames, at 0xf010ff38 and 0xf010ff58. *)
Definition two_frames : memory :=
  store32 (store32 (store32 (store32 zero_memory
    0xf010ff38 0xf010ff58) 0xf010ff3c 0xf0100068)
    0xf010ff58 0) 0xf010ff5c 0xf010003e.

(** A frame whose saved frame pointer is its own address. *)
Definition cyclic_frame : memory :=
  store32 (store32 zero_memory 0xf010ff38 0xf010ff38) 0xf010ff3c 0xf0100068.

(** Two frames, at 0xf010ff38 and 0xf010ff58, each saving the frame pointer
    of the other. *)
Definition two_frame_ring : memory :=
  store32 (store32 (store32 (store32 zero_memory
    0xf010ff38 0xf010ff58) 0xf010ff3c 0xf0100068)
    0xf010ff58 0xf010ff38) 0xf010ff5c 0xf010003e.

(** The part of [m] below the address [top]; nothing is mapped from [top]
    on. *)
Definition mapped_below (top : Z) (m : memory) : memory :=
  fun a => if a <? top then m a else None.

(** One frame at 0xf010ffe8, right under the end of the mapped memory at
    0xf0110000: it saves a zero frame pointer, and its return address and
    the four words above it are the last words mapped; the fifth word above
    its return address, at 0xf0110000, is not mapped. *)
Definition top_frame : memory :=
  mapped_below 0xf0110000
    (store32 (store32 (store32 (store32 (store32 (store32 zero_memory
       0xf010ffe8 0) 0xf010ffec 0xf0100068)
       0xf010fff0 1) 0xf010fff4 2) 0xf010fff8 3) 0xf010fffc 4).


(** ** Translations *)

(** The addresses translated, one for each call of [showmappings]: a call
    prints either a [va]/[pa] pair or one line for a missing mapping. *)
Fixpoint translated (out : list output) : list Z :=
  match out with
  | Cprintf "va: %08p    " [AInt va] :: out' => va :: translated out'
  | Cprintf "No physical page mapping at %08p\n" [AInt va] :: out' =>
      va :: translated out'
  | _ :: out' => translated out'
  | [] => []
  end.

(** The number of addresses [low], [low + pgsize], ... that are at most
    [high]. *)
Definition sweep_pages (pgsize low high : Z) : nat :=
  if low <=? high then Z.to_nat ((high - low) / pgsize + 1) else 0%nat.

(** [low], [low + pgsize], ..., [n] addresses in all. *)
Definition sweep_addresses (pgsize low : Z) (n : nat) : list Z :=
  map (fun i => low + Z.of_nat i * pgsize) (seq 0 n).

(** ** Hexadecimal literals *)

(** The character of the hexadecimal digit [d], in uppercase or lowercase. *)
Definition hex_digit (upper : bool) (d : Z) : ascii :=
  ascii_of_N (Z.to_N (if d <? 10 then char_val "0" + d
                      else if upper then char_val "A" + (d - 10)
                      else char_val "a" + (d - 10))).

(** The [width] low hexadecimal digits of [n], most significant first. *)
Fixpoint hex_digits (upper : bool) (width : nat) (n : Z) : list ascii :=
  match width with
  | O => []
  | S w => hex_digit upper ((n / 16 ^ Z.of_nat w) mod 16) :: hex_digits upper w n
  end.

(** The number of digits of [n] without leading zeros, one for 0. *)
Definition hex_width (n : Z) : nat :=
  if n <=? 0 then 1%nat else Z.to_nat (Z.log2 n / 4 + 1).

(** A literal for [n]: a prefix of two characters, then [width] digits. *)
Definition hex_literal (p1 p2 : ascii) (upper : bool) (width : nat) (n : Z)
    : list ascii :=
  p1 :: p2 :: hex_digits upper width n.

(** Is [c] a hexadecimal digit? *)
Definition is_hex (c : ascii) : bool :=
  let v := char_val c in
  (char_val "0" <=? v) && (v <=? char_val "9")
  || (char_val "A" <=? v) && (v <=? char_val "F")
  || (char_val "a" <=? v) && (v <=? char_val "f").

(** [c], or the digit 0 in place of a character that is no digit; the
    terminator stays. *)
Definition zero_nonhex (c : ascii) : ascii :=
  if is_hex c || is_nul c then c else "0"%char.

(** The value of a string of digits, most significant first, each character
    counting for what [char2int] makes of it. *)
Fixpoint digits_value (s : list ascii) : Z :=
  match s with
  | [] => 0
  | c :: s' => char2int c * 16 ^ Z.of_nat (length s') + digits_value s'
  end.

(** ** Tokens *)

(** The whitespace set: tab, carriage return, newline, space. *)
Definition is_space (c : ascii) : bool :=
  existsb (Ascii.eqb c) ["009"; "013"; "010"; " "]%char.

(** A string split at every whitespace character: the substrings between
    separators, empty ones included. *)
Fixpoint fields (s : list ascii) : list (list ascii) :=
  match s with
  | [] => [[]]
  | c :: s' =>
      if is_space c then [] :: fields s'
      else
        match fields s' with
        | f :: fs => (c :: f) :: fs
        | [] => [[c]]
        end
  end.

Definition nonempty (f : list ascii) : bool :=
  match f with
  | [] => false
  | _ :: _ => true
  end.

(** The non-empty substrings of a string split on whitespace. *)
Definition split_ws (s : list ascii) : list (list ascii) :=
  List.filter nonempty (fields s).

(** The strings the saved pointers denote in the command buffer. *)
Definition tokens (line : list ascii) (argv : list nat) : list (list ascii) :=
  map (fun p => c_str (drop p line)) argv.

(** A character of an argument: neither the terminator nor whitespace. *)
Definition is_arg_char (c : ascii) : bool :=
  negb (is_nul c) && negb (is_space c).

(** The command buffer after parsing: up to its terminator, every
    whitespace character is overwritten with NUL. *)
Fixpoint blank (s : list ascii) : list ascii :=
  match s with
  | [] => []
  | c :: s' =>
      if is_nul c then c :: s'
      else (if is_space c then NUL else c) :: blank s'
  end.

(** Words put on one line, a single space between them. *)
Fixpoint join (words : list (list ascii)) : list ascii :=
  match words with
  | [] => []
  | w :: words' =>
      match words' with
      | [] => w
      | _ :: _ => w ++ " "%char :: join words'
      end
  end.

(** A word that can stand as an argument: not empty, and made of characters
    that are neither whitespace nor the terminator. *)
Definition is_word (w : list ascii) : Prop :=
  w <> [] /\ Forall (fun c => is_arg_char c = true) w.

(** ** Letter case *)

(** The uppercase of a lowercase letter, any other character as it is. *)
Definition toupper (c : ascii) : ascii :=
  let v := char_val c in
  if (char_val "a" <=? v) && (v <=? char_val "z")
  then ascii_of_N (Z.to_N (v - 32))
  else c.

(** ** Stacks that close on themselves *)

(** [ring m first ebp fps]: from [ebp] on the frame pointers met are [fps],
    each non-zero and saved, where it can be read, by the one before it, and
    the last frame saves [first]. *)
Fixpoint ring (m : memory) (first ebp : Z) (fps : list Z) : bool :=
  match fps with
  | [] => ebp =? first
  | fp :: fps' =>
      (ebp =? fp) && negb (fp =? 0)
      && match load32 m fp with
         | Some next => ring m first next fps'
         | None => false
         end
  end.

(** ** The session *)

(** What [monitor] prints before its first prompt. *)
Definition banner (tf : Z) : list output :=
  [Cprintf "Welcome to the JOS kernel monitor!\n" [];
   Cprintf "Type 'help' for a list of commands.\n" []]
  ++ (if tf =? 0 then [] else [Print_trapframe tf]).

(** What the command on a line prints; nothing for a read that gave no
    line. *)
Definition line_output (K : Kernel) (fuel : nat) (tf : Z)
    (l : option (list ascii)) : list output :=
  match l with
  | Some buf => printed (runcmd K fuel buf tf)
  | None => []
  end.

(** * Properties *)

(** ** Words and memory *)

Lemma wrap32_range z : 0 <= wrap32 z < 2 ^ 32.
Proof. unfold wrap32. apply Z.mod_pos_bound. lia. Qed.

Lemma wrap32_small z : 0 <= z < 2 ^ 32 -> wrap32 z = z.
Proof. intros H. unfold wrap32. now apply Z.mod_small. Qed.

Lemma wrap32_idem z : wrap32 (wrap32 z) = wrap32 z.
Proof. apply wrap32_small, wrap32_range. Qed.

Lemma wrap32_add_l a b : wrap32 (wrap32 a + b) = wrap32 (a + b).
Proof. unfold wrap32. now rewrite Zplus_mod_idemp_l. Qed.

Lemma load8_wrap m a b : wrap32 a = wrap32 b -> load8 m a = load8 m b.
Proof. intros H. unfold load8. now rewrite H. Qed.

Lemma load32_wrap m a b : wrap32 a = wrap32 b -> load32 m a = load32 m b.
Proof.
  intros H. unfold load32.
  assert (E : forall i, load8 m (a + i) = load8 m (b + i)).
  { intros i. apply load8_wrap.
    rewrite <- (wrap32_add_l a), <- (wrap32_add_l b). now rewrite H. }
  now rewrite !E, (load8_wrap m a b H).
Qed.

Lemma load32_add32 m a b : load32 m (add32 a b) = load32 m (a + b).
Proof. apply load32_wrap. unfold add32. apply wrap32_idem. Qed.

(** ** Runs *)

Lemma printed_emit {A} o (r : result A) : printed (emit o r) = o ++ printed r.
Proof. now destruct r. Qed.

Lemma emit_app {A} o1 o2 (r : result A) :
  emit o1 (emit o2 r) = emit (o1 ++ o2) r.
Proof. destruct r; cbn; now rewrite app_assoc. Qed.

Lemma emit_nil {A} (r : result A) : emit [] r = r.
Proof. now destruct r. Qed.

Lemma bind_read_ok {B} m a v (k : Z -> result B) :
  load32 m a = Some v -> bind (read m a) k = k v.
Proof. intros H. unfold read. rewrite H. cbn. apply emit_nil. Qed.

Lemma bind_read_fault {B} m a (k : Z -> result B) :
  load32 m a = None -> bind (read m a) k = Fault [].
Proof. intros H. unfold read. now rewrite H. Qed.

Lemma bind_print {B} o (k : unit -> result B) :
  bind (print o) k = emit [o] (k tt).
Proof. reflexivity. Qed.

Lemma bind_done {A B} (r : result A) (k : A -> result B) out b :
  bind r k = Done out b ->
  exists o1 a o2, r = Done o1 a /\ k a = Done o2 b /\ out = o1 ++ o2.
Proof.
  destruct r as [o1 a| |]; cbn [bind]; [|discriminate..].
  destruct (k a) as [o2 b'| |] eqn:E; cbn [emit]; [|discriminate..].
  intros [= <- <-]. now exists o1, a, o2.
Qed.

(** ** backtrace *)

Lemma add32_add32 a b c : add32 (add32 a b) c = add32 a (b + c).
Proof. unfold add32. rewrite wrap32_add_l. f_equal. lia. Qed.

Lemma reported_frames_args vs out :
  reported_frames (map (fun v => Cprintf "%08x " [AInt v]) vs ++ out)
  = reported_frames out.
Proof. induction vs as [|v vs IH]; [reflexivity|exact IH]. Qed.

Lemma reported_offsets_args vs out :
  reported_offsets (map (fun v => Cprintf "%08x " [AInt v]) vs ++ out)
  = reported_offsets out.
Proof. induction vs as [|v vs IH]; [reflexivity|exact IH]. Qed.

Lemma reported_frames_record K f out :
  reported_frames (frame_record K f ++ out)
  = (fr_ebp f, fr_eip f) :: reported_frames out.
Proof.
  unfold frame_record. cbn [app reported_frames]. f_equal.
  now rewrite <- app_assoc, reported_frames_args.
Qed.

Lemma reported_offsets_record K f out :
  reported_offsets (frame_record K f ++ out)
  = (fr_eip f - eip_fn_addr (debuginfo_eip K (fr_eip f))) mod 2 ^ 32
    :: reported_offsets out.
Proof.
  unfold frame_record. cbn [app reported_offsets].
  now rewrite <- app_assoc, reported_offsets_args.
Qed.

(** The five reads of the inner loop, where the words can be read. *)
Lemma backtrace_args_ok K n : forall ptr q vs,
  wrap32 (ptr + 4) = wrap32 q ->
  read_words (mem K) q n = Some vs ->
  backtrace_args K n ptr
  = Done (map (fun v => Cprintf "%08x " [AInt v]) vs) tt.
Proof.
  induction n as [|n IH]; intros ptr q vs Hq Hr; cbn [read_words] in Hr.
  - now injection Hr as <-.
  - destruct (load32 (mem K) q) as [v|] eqn:Ev; [|discriminate].
    destruct (read_words (mem K) (q + 4) n) as [vs'|] eqn:Evs;
      [|discriminate].
    injection Hr as <-. cbn [backtrace_args].
    rewrite (bind_read_ok _ _ v)
      by (rewrite <- Ev; apply load32_wrap; unfold add32;
          now rewrite wrap32_idem).
    rewrite bind_print, (IH _ (q + 4) vs'); [reflexivity| |exact Evs].
    unfold add32. now rewrite <- (wrap32_add_l q), <- Hq.
Qed.

(** The inner loop, where one of the words cannot be read. *)
Lemma backtrace_args_fault K n : forall ptr q,
  wrap32 (ptr + 4) = wrap32 q ->
  read_words (mem K) q n = None ->
  exists out,
    backtrace_args K n ptr = Fault out /\ reported_frames out = [].
Proof.
  induction n as [|n IH]; intros ptr q Hq Hr; cbn [read_words] in Hr;
    [discriminate|].
  cbn [backtrace_args].
  assert (Ea : load32 (mem K) (add32 ptr 4) = load32 (mem K) q)
    by (apply load32_wrap; unfold add32; now rewrite wrap32_idem).
  destruct (load32 (mem K) q) as [v|] eqn:Ev.
  - rewrite (bind_read_ok _ _ v _ Ea), bind_print.
    destruct (IH (add32 ptr 4) (q + 4)) as (out & -> & Hout).
    + unfold add32. now rewrite <- (wrap32_add_l q), <- Hq.
    + now destruct (read_words (mem K) (q + 4) n).
    + eexists. split; [reflexivity|exact Hout].
  - rewrite (bind_read_fault _ _ _ Ea). now exists [].
Qed.

(** One round of the loop on a frame that can be read. *)
Lemma backtrace_frame_ok K fp f :
  frame_at (mem K) fp = Some f ->
  backtrace_frame K fp = Done (frame_record K f) tt.
Proof.
  unfold frame_at. intros H.
  destruct (load32 (mem K) (fp + 4)) as [eip|] eqn:Eeip; [|discriminate].
  destruct (read_words (mem K) (fp + 8) 5) as [args|] eqn:Eargs;
    [|discriminate].
  injection H as <-. unfold backtrace_frame.
  rewrite <- load32_add32 in Eeip.
  rewrite (bind_read_ok _ _ eip _ Eeip), bind_print.
  rewrite (bind_read_ok _ _ eip _ Eeip).
  rewrite (backtrace_args_ok K 5 _ (fp + 8) args); [reflexivity| |exact Eargs].
  unfold add32. rewrite wrap32_add_l. f_equal. lia.
Qed.

(** One round of the loop on a frame that cannot be read: a page fault,
    after the frame line at most. *)
Lemma backtrace_frame_fault K fp :
  frame_at (mem K) fp = None ->
  exists out,
    backtrace_frame K fp = Fault out
    /\ (length (reported_frames out) <= 1)%nat.
Proof.
  unfold frame_at, backtrace_frame. intros H.
  rewrite <- load32_add32 in H.
  destruct (load32 (mem K) (add32 fp 4)) as [eip|] eqn:Eeip.
  - rewrite (bind_read_ok _ _ eip _ Eeip), bind_print.
    rewrite (bind_read_ok _ _ eip _ Eeip).
    destruct (backtrace_args_fault K 5 (add32 fp 4) (fp + 8))
      as (out & -> & Hout).
    + unfold add32. rewrite wrap32_add_l. f_equal. lia.
    + now destruct (read_words (mem K) (fp + 8) 5).
    + eexists. split; [reflexivity|].
      cbn [bind emit app reported_frames length]. rewrite Hout. cbn. lia.
  - rewrite (bind_read_fault _ _ _ Eeip). exists []. split; [reflexivity|].
    cbn. lia.
Qed.

Lemma backtrace_loop_zero K fuel : backtrace_loop K fuel 0 = Done [] 0.
Proof. now destruct fuel. Qed.

Lemma backtrace_loop_spent K ebp : ebp <> 0 -> backtrace_loop K 0 ebp = More [].
Proof. intros H. cbn. apply Z.eqb_neq in H. now rewrite H. Qed.

Lemma backtrace_loop_step K fuel ebp f next :
  ebp <> 0 -> frame_at (mem K) ebp = Some f ->
  load32 (mem K) ebp = Some next ->
  backtrace_loop K (S fuel) ebp
  = emit (frame_record K f) (backtrace_loop K fuel next).
Proof.
  intros H Hf Hnext. cbn [backtrace_loop].
  apply Z.eqb_neq in H. rewrite H.
  rewrite (backtrace_frame_ok _ _ _ Hf). cbn [bind].
  now rewrite (bind_read_ok _ _ next _ Hnext).
Qed.

Lemma backtrace_loop_bad_frame K fuel ebp :
  ebp <> 0 -> frame_at (mem K) ebp = None ->
  exists out,
    backtrace_loop K (S fuel) ebp = Fault out
    /\ (length (reported_frames out) <= 1)%nat.
Proof.
  intros H Hf. cbn [backtrace_loop].
  apply Z.eqb_neq in H. rewrite H.
  destruct (backtrace_frame_fault _ _ Hf) as (out & -> & Hout).
  now exists out.
Qed.

Lemma backtrace_loop_bad_link K fuel ebp f :
  ebp <> 0 -> frame_at (mem K) ebp = Some f ->
  load32 (mem K) ebp = None ->
  backtrace_loop K (S fuel) ebp = Fault (frame_record K f).
Proof.
  intros H Hf Hnext. cbn [backtrace_loop].
  apply Z.eqb_neq in H. rewrite H.
  rewrite (backtrace_frame_ok _ _ _ Hf). cbn [bind].
  rewrite (bind_read_fault _ _ _ Hnext). cbn [emit]. now rewrite app_nil_r.
Qed.

Lemma mon_backtrace_loop K fuel argc argv tf :
  mon_backtrace K fuel argc argv tf
  = emit [Cprintf "Stack backtrace:\n" []]
         (backtrace_loop K fuel (wrap32 (read_ebp K))).
Proof. reflexivity. Qed.

Lemma linked_cons m ebp fp fps :
  linked m ebp (fp :: fps) = true ->
  ebp = fp /\ fp <> 0
  /\ exists next, load32 m fp = Some next /\ linked m next fps = true.
Proof.
  cbn [linked]. intros L.
  apply andb_prop in L as [L Hrest]. apply andb_prop in L as [E Hnz].
  apply Z.eqb_eq in E. apply negb_true_iff, Z.eqb_neq in Hnz.
  destruct (load32 m fp) as [next|]; [|discriminate]. eauto.
Qed.

Lemma linked_step m ebp next fps :
  ebp <> 0 -> load32 m ebp = Some next -> linked m next fps = true ->
  linked m ebp (ebp :: fps) = true.
Proof.
  intros Hnz Hnext L. cbn [linked]. rewrite Z.eqb_refl, Hnext, L.
  apply Z.eqb_neq in Hnz. now rewrite Hnz.
Qed.

Lemma frames_at_cons m fp fps frames :
  frames_at m (fp :: fps) = Some frames ->
  exists f fs,
    frames = f :: fs /\ frame_at m fp = Some f /\ frames_at m fps = Some fs.
Proof.
  cbn [frames_at]. destruct (frame_at m fp) as [f|]; [|discriminate].
  destruct (frames_at m fps) as [fs|]; [|discriminate].
  intros [= <-]. eauto.
Qed.

Lemma frame_at_words m fp f :
  frame_at m fp = Some f ->
  fr_ebp f = fp /\ load32 m (fp + 4) = Some (fr_eip f)
  /\ read_words m (fp + 8) 5 = Some (fr_args f).
Proof.
  unfold frame_at. destruct (load32 m (fp + 4)); [|discriminate].
  destruct (read_words m (fp + 8) 5); [|discriminate].
  now intros [= <-].
Qed.

Lemma frames_at_words m fps : forall frames,
  frames_at m fps = Some frames ->
  map fr_ebp frames = fps
  /\ Forall (fun f => load32 m (fr_ebp f + 4) = Some (fr_eip f)
                      /\ read_words m (fr_ebp f + 8) 5 = Some (fr_args f))
            frames.
Proof.
  induction fps as [|fp fps IH]; intros frames H.
  - injection H as <-. now split.
  - apply frames_at_cons in H as (f & fs & -> & Hf & Hfs).
    destruct (IH _ Hfs) as [Hmap Hall].
    destruct (frame_at_words _ _ _ Hf) as (E & Heip & Hargs).
    cbn [map]. split; [congruence|].
    constructor; [rewrite E; now split | exact Hall].
Qed.

(** The loop on a stack of linked frames that can be read: one record for
    each of the first [fuel] frames, and the end after the last. *)
Lemma backtrace_loop_linked K fps : forall ebp frames fuel,
  linked (mem K) ebp fps = true ->
  frames_at (mem K) fps = Some frames ->
  backtrace_loop K fuel ebp
  = if (length fps <=? fuel)%nat
    then Done (flat_map (frame_record K) (take fuel frames)) 0
    else More (flat_map (frame_record K) (take fuel frames)).
Proof.
  induction fps as [|fp fps IH]; intros ebp frames fuel L F.
  - cbn in L. apply Z.eqb_eq in L. subst ebp. injection F as <-.
    rewrite backtrace_loop_zero. cbn [length Nat.leb]. now rewrite take_nil.
  - apply linked_cons in L as (-> & Hnz & next & Hnext & L).
    apply frames_at_cons in F as (f & fs & -> & Hf & Hfs).
    destruct fuel as [|fuel]; [now apply backtrace_loop_spent|].
    rewrite (backtrace_loop_step _ _ _ _ _ Hnz Hf Hnext).
    rewrite (IH _ _ fuel L Hfs). cbn [length Nat.leb take flat_map].
    now destruct (length fps <=? fuel)%nat.
Qed.



(** The loop returns only from a stack of linked frames that can be
    read. *)
Lemma backtrace_loop_done K fuel : forall ebp out r,
  backtrace_loop K fuel ebp = Done out r ->
  exists fps frames,
    linked (mem K) ebp fps = true /\ frames_at (mem K) fps = Some frames.
Proof.
  induction fuel as [|fuel IH]; intros ebp out r E.
  - destruct (Z.eq_dec ebp 0) as [->|Hnz]; [now exists [], []|].
    now rewrite backtrace_loop_spent in E.
  - destruct (Z.eq_dec ebp 0) as [->|Hnz]; [now exists [], []|].
    destruct (frame_at (mem K) ebp) as [f|] eqn:Hf.
    + destruct (load32 (mem K) ebp) as [next|] eqn:Hnext.
      * rewrite (backtrace_loop_step _ _ _ _ _ Hnz Hf Hnext) in E.
        destruct (backtrace_loop K fuel next) as [out' r'| |] eqn:E';
          try discriminate.
        destruct (IH _ _ _ E') as (fps & frames & L & F).
        exists (ebp :: fps), (f :: frames). split.
        -- now apply linked_step with next.
        -- cbn [frames_at]. now rewrite Hf, F.
      * now rewrite (backtrace_loop_bad_link _ _ _ _ Hnz Hf Hnext) in E.
    + destruct (backtrace_loop_bad_frame K fuel ebp Hnz Hf) as (o & Eo & _).
      now rewrite Eo in E.
Qed.

Lemma reported_frames_records K frames :
  reported_frames (flat_map (frame_record K) frames)
  = map (fun f => (fr_ebp f, fr_eip f)) frames.
Proof.
  induction frames as [|f frames IH]; [reflexivity|].
  cbn [flat_map map]. now rewrite reported_frames_record, IH.
Qed.

Lemma reported_offsets_records K frames :
  reported_offsets (flat_map (frame_record K) frames)
  = map (fun f => (fr_eip f - eip_fn_addr (debuginfo_eip K (fr_eip f)))
                  mod 2 ^ 32) frames.
Proof.
  induction frames as [|f frames IH]; [reflexivity|].
  cbn [flat_map map]. now rewrite reported_offsets_record, IH.
Qed.

Lemma frames_at_length m fps : forall frames,
  frames_at m fps = Some frames -> length frames = length fps.
Proof.
  intros frames H. destruct (frames_at_words _ _ _ H) as [<- _].
  now rewrite length_map.
Qed.

(** The stack of [top_frame]: its one frame saves a zero frame pointer,
    and the loop stops at a page fault in it. *)
Lemma top_frame_faults fuel argc argv tf :
  exists out,
    mon_backtrace (sample_kernel 0xf010ffe8 top_frame) (S fuel) argc argv tf
    = Fault out.
Proof.
  rewrite mon_backtrace_loop.
  destruct (backtrace_loop_bad_frame (sample_kernel 0xf010ffe8 top_frame)
              fuel 0xf010ffe8) as (o & E & _);
    [lia | vm_compute; reflexivity |].
  change (wrap32 (read_ebp (sample_kernel 0xf010ffe8 top_frame)))
    with 0xf010ffe8.
  rewrite E. cbn [emit]. eauto.
Qed.

Lemma top_frame_never_done fuel argc argv tf out r :
  mon_backtrace (sample_kernel 0xf010ffe8 top_frame) fuel argc argv tf
  <> Done out r.
Proof.
  destruct fuel as [|fuel]; [discriminate|].
  destruct (top_frame_faults fuel argc argv tf) as [o ->]. discriminate.
Qed.

(** C1, as the code has it.  On a stack of [N] frames linked through their
    saved frame pointers and ended by a zero frame pointer, where the return
    address and the five words above it can be read in every frame,
    [mon_backtrace] returns 0 after printing its heading and then, for each
    frame in turn from the innermost, one frame record: [N] frame lines,
    each with the frame pointer and, as return address, the word stored one
    machine word above it, and [N] symbol lines, each with the return
    address minus the start address of the function it resolves to (as the
    unsigned 32-bit difference the code prints). *)
Theorem backtrace_emits_frames K fps frames fuel argc argv tf :
  linked (mem K) (wrap32 (read_ebp K)) fps = true ->
  frames_at (mem K) fps = Some frames ->
  (length fps <= fuel)%nat ->
  let out :=
    Cprintf "Stack backtrace:\n" [] :: flat_map (frame_record K) frames in
  mon_backtrace K fuel argc argv tf = Done out 0
  /\ map fr_ebp frames = fps
  /\ Forall (fun f => load32 (mem K) (fr_ebp f + 4) = Some (fr_eip f)
                      /\ read_words (mem K) (fr_ebp f + 8) 5
                         = Some (fr_args f)) frames
  /\ reported_frames out = map (fun f => (fr_ebp f, fr_eip f)) frames
  /\ reported_offsets out
     = map (fun f => (fr_eip f - eip_fn_addr (debuginfo_eip K (fr_eip f)))
                     mod 2 ^ 32) frames.
Proof.
  intros L F Hfuel out. subst out.
  destruct (frames_at_words _ _ _ F) as [Hmap Hall].
  repeat split; try assumption.
  - rewrite mon_backtrace_loop, (backtrace_loop_linked K fps _ frames fuel L F).
    replace (length fps <=? fuel)%nat with true
      by (symmetry; now apply Nat.leb_le).
    rewrite take_ge by (rewrite (frames_at_length _ _ _ F); lia).
    reflexivity.
  - change (reported_frames (?h :: ?l)) with (reported_frames l).
    apply reported_frames_records.
  - change (reported_offsets (?h :: ?l)) with (reported_offsets l).
    apply reported_offsets_records.
Qed.

Lemma backtrace_emits_frames_witness :
  mon_backtrace (sample_kernel 0xf010ff38 two_frames) 2 1
    [chars "backtrace"] 0
  = Done (Cprintf "Stack backtrace:\n" []
          :: frame_record (sample_kernel 0xf010ff38 two_frames)
               {| fr_ebp := 0xf010ff38; fr_eip := 0xf0100068;
                  fr_args := [0; 0; 0; 0; 0] |}
          ++ frame_record (sample_kernel 0xf010ff38 two_frames)
               {| fr_ebp := 0xf010ff58; fr_eip := 0xf010003e;
                  fr_args := [0; 0; 0; 0; 0] |}) 0.
Proof.
  destruct (backtrace_emits_frames (sample_kernel 0xf010ff38 two_frames)
              [0xf010ff38; 0xf010ff58]
              [{| fr_ebp := 0xf010ff38; fr_eip := 0xf0100068;
                  fr_args := [0; 0; 0; 0; 0] |};
               {| fr_ebp := 0xf010ff58; fr_eip := 0xf010003e;
                  fr_args := [0; 0; 0; 0; 0] |}] 2
              1 [chars "backtrace"] 0) as (E & _).
  - vm_compute. reflexivity.
  - vm_compute. reflexivity.
  - cbn. lia.
  - rewrite E. cbn [flat_map]. now rewrite app_nil_r.
Defined.

(** C1, as stated, fails on a stack whose frame lies right under the end of
    the mapped memory: the one frame of [top_frame] saves a zero frame
    pointer and its return address can be read, but the fifth word above
    the return address is not mapped; [mon_backtrace] stops at the page
    fault after the frame line and four words, prints no symbol line, and
    does not return. *)
Lemma backtrace_emits_frames_counterexample :
  let K := sample_kernel 0xf010ffe8 top_frame in
  linked (mem K) (wrap32 (read_ebp K)) [0xf010ffe8] = true
  /\ load32 (mem K) (0xf010ffe8 + 4) = Some 0xf0100068
  /\ mon_backtrace K 1 1 [chars "backtrace"] 0
     = Fault [Cprintf "Stack backtrace:\n" [];
              Cprintf "ebp %x eip %x args " [AInt 0xf010ffe8; AInt 0xf0100068];
              Cprintf "%08x " [AInt 1]; Cprintf "%08x " [AInt 2];
              Cprintf "%08x " [AInt 3]; Cprintf "%08x " [AInt 4]]
  /\ ~ (exists fuel out r,
          mon_backtrace K fuel 1 [chars "backtrace"] 0 = Done out r).
Proof.
  intros K. split; [vm_compute; reflexivity|].
  split; [vm_compute; reflexivity|]. split; [vm_compute; reflexivity|].
  intros (fuel & out & r & E). exact (top_frame_never_done _ _ _ _ _ _ E).
Qed.


(** The frame pointers of [cyclic_frame] do not come to zero. *)
Lemma cyclic_frame_chain fps : linked cyclic_frame 0xf010ff38 fps = false.
Proof.
  induction fps as [|fp fps IH]; [reflexivity|]. cbn [linked].
  destruct (Z.eqb_spec 0xf010ff38 fp) as [<-|]; [|reflexivity].
  change (load32 cyclic_frame 0xf010ff38) with (Some 0xf010ff38).
  cbv beta iota. rewrite IH. reflexivity.
Qed.



(** ** showmappings *)

Lemma PTE_ADDR_flags K pte : Z.land (PTE_ADDR K pte) (PTE_FLAGS K) = 0.
Proof.
  unfold PTE_ADDR.
  rewrite <- Z.land_assoc, (Z.land_comm (Z.lnot _)), Z.land_lnot_diag.
  apply Z.land_0_r.
Qed.

Lemma PTE_ADDR_frame K pte :
  Z.lor (PTE_ADDR K pte) (Z.land pte (PTE_FLAGS K)) = pte.
Proof.
  unfold PTE_ADDR.
  rewrite <- Z.land_lor_distr_r, Z.lor_comm, Z.lor_lnot_diag.
  apply Z.land_m1_r.
Qed.

Lemma translated_showmappings K va out :
  translated (printed (showmappings K va) ++ out) = va :: translated out.
Proof. unfold showmappings. now destruct (page_lookup K va). Qed.

Lemma showmappings_loop_stop K fuel low high :
  high < low -> showmappings_loop K fuel low high = Done [] 0.
Proof.
  intros H. apply Z.leb_gt in H. destruct fuel; cbn; now rewrite H.
Qed.

Lemma showmappings_loop_step K fuel low high :
  low <= high ->
  showmappings_loop K (S fuel) low high
  = emit (printed (showmappings K low))
         (showmappings_loop K fuel (add32 low (PGSIZE K)) high).
Proof. intros H. apply Z.leb_le in H. cbn. now rewrite H. Qed.

Lemma showmappings_loop_spent K low high :
  low <= high -> showmappings_loop K 0 low high = More [].
Proof. intros H. apply Z.leb_le in H. cbn. now rewrite H. Qed.

Lemma sweep_pages_S pgsize low high n :
  0 < pgsize -> sweep_pages pgsize low high = S n ->
  low <= high /\ sweep_pages pgsize (low + pgsize) high = n.
Proof.
  unfold sweep_pages. intros Hp E.
  destruct (Z.leb_spec low high) as [Hle|Hgt]; [|discriminate].
  split; [assumption|].
  assert (Hq : 0 <= (high - low) / pgsize) by (apply Z.div_pos; lia).
  destruct (Z.leb_spec (low + pgsize) high) as [Hle'|Hgt'].
  - replace (high - low) with (high - (low + pgsize) + 1 * pgsize) in E by lia.
    rewrite Z.div_add in E by lia. lia.
  - rewrite (Z.div_small (high - low)) in E by lia. cbn in E. lia.
Qed.

Lemma sweep_addresses_S pgsize low n :
  sweep_addresses pgsize low (S n)
  = low :: sweep_addresses pgsize (low + pgsize) n.
Proof.
  unfold sweep_addresses. cbn [seq map]. f_equal; [lia|].
  rewrite <- seq_shift, map_map. apply map_ext. intros i. lia.
Qed.

(** The sweep when no address on the way passes the top of the address
    space. *)
Lemma showmappings_loop_in_range K high n : forall low fuel,
  0 < PGSIZE K -> 0 <= low -> low + Z.of_nat n * PGSIZE K < 2 ^ 32 ->
  sweep_pages (PGSIZE K) low high = n ->
  exists out,
    showmappings_loop K fuel low high
    = (if (n <=? fuel)%nat then Done out 0 else More out)
    /\ translated out = sweep_addresses (PGSIZE K) low (Nat.min n fuel).
Proof.
  induction n as [|n IH]; intros low fuel Hp Hlow Htop Hn.
  - exists []. split; [|reflexivity].
    apply showmappings_loop_stop.
    unfold sweep_pages in Hn.
    destruct (Z.leb_spec low high) as [Hle|Hgt]; [|assumption].
    assert (0 <= (high - low) / PGSIZE K) by (apply Z.div_pos; lia). lia.
  - apply sweep_pages_S in Hn as [Hle Hn]; [|assumption].
    destruct fuel as [|fuel].
    + exists []. split; [|reflexivity]. now apply showmappings_loop_spent.
    + rewrite showmappings_loop_step by assumption.
      replace (add32 low (PGSIZE K)) with (low + PGSIZE K)
        by (unfold add32; rewrite wrap32_small; lia).
      destruct (IH (low + PGSIZE K) fuel) as (out & E & T);
        [assumption|lia|lia|assumption|].
      exists (printed (showmappings K low) ++ out). rewrite E. split.
      * cbn [Nat.leb]. now destruct (n <=? fuel)%nat.
      * rewrite translated_showmappings, T. cbn [Nat.min].
        now rewrite sweep_addresses_S.
Qed.

(** The sweep under an invariant that keeps [low] at or below [high]. *)
Lemma showmappings_loop_forever K (I : Z -> Prop) high :
  (forall x, I x -> x <= high /\ I (add32 x (PGSIZE K))) ->
  forall fuel low, I low ->
  exists out,
    showmappings_loop K fuel low high = More out
    /\ length (translated out) = fuel.
Proof.
  intros HI. induction fuel as [|fuel IH]; intros low Hlow.
  - exists []. split; [|reflexivity].
    apply showmappings_loop_spent, HI, Hlow.
  - rewrite showmappings_loop_step by apply HI, Hlow.
    destruct (IH (add32 low (PGSIZE K))) as (out & E & T);
      [apply HI, Hlow|].
    exists (printed (showmappings K low) ++ out). rewrite E.
    rewrite translated_showmappings. cbn. now rewrite T.
Qed.

(** The addresses a sweep from [low] can reach all sit at the offset of
    [low] in their page; the last of them is [2 ^ 32 - pgsize + low mod
    pgsize].  When [high] is below that one, the first address past [high] is
    below [2 ^ 32]. *)
Lemma sweep_below_top pgsize low high :
  0 < pgsize -> (pgsize | 2 ^ 32) -> 0 <= low < 2 ^ 32 ->
  high < 2 ^ 32 - pgsize + low mod pgsize ->
  low + Z.of_nat (sweep_pages pgsize low high) * pgsize < 2 ^ 32.
Proof.
  intros Hp [m Hm] Hlow Hhigh. unfold sweep_pages.
  destruct (Z.leb_spec low high) as [Hle|Hgt]; [|cbn; lia].
  assert (Hq : 0 <= (high - low) / pgsize) by (apply Z.div_pos; lia).
  rewrite Z2Nat.id by lia.
  pose proof (Z.div_mod (high - low) pgsize ltac:(lia)) as Hd.
  pose proof (Z.mod_pos_bound (high - low) pgsize Hp) as Hdr.
  pose proof (Z.div_mod low pgsize ltac:(lia)) as Hl.
  pose proof (Z.mod_pos_bound low pgsize Hp) as Hlr.
  rewrite Hm in *.
  set (q := (high - low) / pgsize) in *. set (r := low mod pgsize) in *.
  set (l := low / pgsize) in *.
  assert (l + q < m - 1) by nia.
  nia.
Qed.

(** When [high] is at or above the last address the sweep can reach, the
    sweep never passes [high]. *)
Lemma showmappings_loop_wraps K low high :
  0 < PGSIZE K -> (PGSIZE K | 2 ^ 32) -> 0 <= low < 2 ^ 32 ->
  2 ^ 32 - PGSIZE K + low mod PGSIZE K <= high ->
  forall fuel, exists out,
    showmappings_loop K fuel low high = More out
    /\ length (translated out) = fuel.
Proof.
  intros Hp Hdiv Hlow Hhigh fuel.
  apply (showmappings_loop_forever K
           (fun x => 0 <= x < 2 ^ 32 /\ x mod PGSIZE K = low mod PGSIZE K));
    [|now split].
  clear fuel. intros x [Hx Hmod]. split.
  - destruct Hdiv as [m Hm].
    pose proof (Z.div_mod x (PGSIZE K) ltac:(lia)) as Hd.
    pose proof (Z.mod_pos_bound low (PGSIZE K) Hp) as Hr.
    rewrite Hmod in Hd. rewrite Hm in *.
    set (q := x / PGSIZE K) in *. set (r := low mod PGSIZE K) in *.
    assert (q < m) by nia. nia.
  - split; [apply wrap32_range|].
    unfold add32, wrap32.
    rewrite Z.mod_mod_divide by assumption.
    rewrite <- Hmod, <- Zplus_mod_idemp_r, Z_mod_same_full, Z.add_0_r.
    reflexivity.
Qed.

(** A range of [k] pages whose addresses, and the one after them, are below
    [2 ^ 32]: [k + 1] translations, a page apart from [low] on. *)
Lemma showmappings_loop_pages K low k fuel :
  0 < PGSIZE K -> 0 <= low -> 0 <= k ->
  low + (k + 1) * PGSIZE K < 2 ^ 32 -> (Z.to_nat k < fuel)%nat ->
  exists out,
    showmappings_loop K fuel low (low + k * PGSIZE K) = Done out 0
    /\ translated out = sweep_addresses (PGSIZE K) low (Z.to_nat (k + 1)).
Proof.
  intros Hp Hlow Hk Htop Hfuel.
  assert (Hn : sweep_pages (PGSIZE K) low (low + k * PGSIZE K)
               = Z.to_nat (k + 1)).
  { unfold sweep_pages.
    destruct (Z.leb_spec low (low + k * PGSIZE K)) as [_|Hlt]; [|nia].
    replace (low + k * PGSIZE K - low) with (k * PGSIZE K) by lia.
    now rewrite Z.div_mul by lia. }
  destruct (showmappings_loop_in_range K (low + k * PGSIZE K)
              (Z.to_nat (k + 1)) low fuel) as (out & E & T);
    [assumption | assumption | rewrite Z2Nat.id by lia; lia | exact Hn |].
  exists out.
  replace (Z.to_nat (k + 1) <=? fuel)%nat with true in E
    by (symmetry; apply Nat.leb_le; lia).
  split; [exact E|]. rewrite T. f_equal. lia.
Qed.

Lemma mon_showmappings_range K fuel argv tf :
  mon_showmappings K fuel 3 argv tf
  = showmappings_loop K fuel (wrap32 (hexaddr2decaddr (nth 1 argv [])))
                             (wrap32 (hexaddr2decaddr (nth 2 argv []))).
Proof. reflexivity. Qed.

(** C3, on the code.  Range mode with [low = high = 0xFFFFF000] and 4 KiB
    pages: the sweep translates [0xFFFFF000], steps to [0] modulo [2 ^ 32],
    which is again at most [high], and goes on; it never returns, and has
    made one translation for each unit of fuel, more than the single one of
    a range with [low = high]. *)
Theorem showmappings_range_top_page fuel :
  exists out,
    mon_showmappings (sample_kernel 0 zero_memory) fuel 3
      [chars "showmappings"; chars "0xFFFFF000"; chars "0xFFFFF000"] 0
    = More out
    /\ length (translated out) = fuel
    /\ firstn 2 (translated out) = firstn fuel [0xFFFFF000; 0].
Proof.
  rewrite mon_showmappings_range.
  change (wrap32 (hexaddr2decaddr (nth 1 _ []))) with 0xFFFFF000.
  change (wrap32 (hexaddr2decaddr (nth 2 _ []))) with 0xFFFFF000.
  destruct (showmappings_loop_wraps (sample_kernel 0 zero_memory)
              0xFFFFF000 0xFFFFF000) with (fuel := fuel) as (out & E & T).
  - reflexivity.
  - exists (2 ^ 20). reflexivity.
  - lia.
  - vm_compute. discriminate.
  - exists out. split; [assumption|]. split; [assumption|].
    destruct fuel as [|[|fuel]].
    + rewrite showmappings_loop_spent in E by lia.
      injection E as <-. reflexivity.
    + rewrite showmappings_loop_step, showmappings_loop_spent in E
        by (vm_compute; discriminate).
      injection E as <-. reflexivity.
    + rewrite !showmappings_loop_step in E by (vm_compute; discriminate).
      apply (f_equal printed) in E. cbn [printed] in E. rewrite <- E.
      rewrite !printed_emit, !translated_showmappings.
      now destruct fuel.
Qed.

(** C10, as the code has it.  Range mode steps [low] by the page size modulo
    [2 ^ 32].  The addresses it can reach from [low] end at [2 ^ 32 - page
    size + low mod page size].  When [high] is at or above that address, the
    step wraps around to an address that is again at most [high], and the
    sweep never returns: this needs [high] within one page of the top, and
    happens for every [low] when [high] is [2 ^ 32 - 1].  When [high] is
    below that address, so whenever [high + page size < 2 ^ 32], the sweep
    returns 0 after translating [low], [low + page size], ... up to
    [high]. *)
Theorem showmappings_range_wraps K argv tf :
  0 < PGSIZE K -> (PGSIZE K | 2 ^ 32) ->
  let low := wrap32 (hexaddr2decaddr (nth 1 argv [])) in
  let high := wrap32 (hexaddr2decaddr (nth 2 argv [])) in
  let last := 2 ^ 32 - PGSIZE K + low mod PGSIZE K in
  let n := sweep_pages (PGSIZE K) low high in
  (last <= high ->
   2 ^ 32 - PGSIZE K <= high
   /\ forall fuel, exists out,
        mon_showmappings K fuel 3 argv tf = More out
        /\ length (translated out) = fuel)
  /\ (high < last ->
      forall fuel, exists out,
        mon_showmappings K fuel 3 argv tf
        = (if (n <=? fuel)%nat then Done out 0 else More out)
        /\ translated out = sweep_addresses (PGSIZE K) low (Nat.min n fuel))
  /\ (high = 2 ^ 32 - 1 -> last <= high)
  /\ (high + PGSIZE K < 2 ^ 32 -> high < last).
Proof.
  intros Hp Hdiv low high last n.
  pose proof (wrap32_range (hexaddr2decaddr (nth 1 argv []))) as Hlow.
  pose proof (Z.mod_pos_bound low (PGSIZE K) Hp) as Hr.
  fold low in Hlow.
  split; [|split; [|split]].
  - intros Hlast. split; [subst last; lia|].
    intros fuel. rewrite mon_showmappings_range.
    now apply showmappings_loop_wraps.
  - intros Hlast fuel. rewrite mon_showmappings_range.
    apply showmappings_loop_in_range; [assumption|lia| |reflexivity].
    now apply sweep_below_top.
  - subst last. lia.
  - subst last. lia.
Qed.

(** C4.  [showmappings] on a virtual address: when [page_lookup] finds an
    entry it prints the virtual address and, as physical address, the entry
    with its flag bits cleared and its other bits as stored; when it finds
    none it prints the one line for a missing mapping, with the virtual
    address and no physical address.  It returns 0 either way. *)
Theorem showmappings_reports K vaddr :
  (forall pte,
     page_lookup K vaddr = Some pte ->
     showmappings K vaddr
     = Done [Cprintf "va: %08p    " [AInt vaddr];
             Cprintf "pa: %08p\n" [AInt (PTE_ADDR K pte)]] 0
     /\ PTE_ADDR K pte = Z.land pte (Z.lnot (PTE_FLAGS K))
     /\ Z.land (PTE_ADDR K pte) (PTE_FLAGS K) = 0
     /\ Z.lor (PTE_ADDR K pte) (Z.land pte (PTE_FLAGS K)) = pte)
  /\ (page_lookup K vaddr = None ->
      showmappings K vaddr
      = Done [Cprintf "No physical page mapping at %08p\n" [AInt vaddr]] 0).
Proof.
  split.
  - intros pte H. unfold showmappings. rewrite H.
    repeat split; [apply PTE_ADDR_flags | apply PTE_ADDR_frame].
  - intros H. unfold showmappings. now rewrite H.
Qed.

Lemma showmappings_reports_witness :
  showmappings (sample_kernel 0 zero_memory) 0x1000
  = Done [Cprintf "va: %08p    " [AInt 0x1000];
          Cprintf "pa: %08p\n" [AInt 0x2000]] 0
  /\ showmappings (sample_kernel 0 zero_memory) 0xAB000
     = Done [Cprintf "No physical page mapping at %08p\n" [AInt 0xAB000]] 0.
Proof.
  split.
  - apply (proj1 (showmappings_reports (sample_kernel 0 zero_memory) 0x1000)
             0x2007).
    reflexivity.
  - apply (proj2 (showmappings_reports (sample_kernel 0 zero_memory) 0xAB000)).
    reflexivity.
Defined.

Lemma showmappings_range_wraps_witness :
  let K := sample_kernel 0 zero_memory in
  (forall fuel, exists out,
     mon_showmappings K fuel 3
       [chars "showmappings"; chars "0xFFFFF000"; chars "0xFFFFFFFF"] 0
     = More out
     /\ length (translated out) = fuel)
  /\ (exists out,
        mon_showmappings K 3 3
          [chars "showmappings"; chars "0x1000"; chars "0x3000"] 0
        = Done out 0
        /\ translated out = [0x1000; 0x2000; 0x3000]).
Proof.
  intros K.
  assert (Hp : 0 < PGSIZE K) by reflexivity.
  assert (Hdiv : (PGSIZE K | 2 ^ 32)) by (exists (2 ^ 20); reflexivity).
  split.
  - apply (proj1 (showmappings_range_wraps K
                    [chars "showmappings"; chars "0xFFFFF000";
                     chars "0xFFFFFFFF"] 0 Hp Hdiv)).
    vm_compute. discriminate.
  - apply (proj1 (proj2 (showmappings_range_wraps K
                    [chars "showmappings"; chars "0x1000"; chars "0x3000"]
                    0 Hp Hdiv))
             ltac:(vm_compute; reflexivity) 3%nat).
Defined.

(** C10, as stated, fails where [high] is exactly one page below [2 ^ 32]
    and [low] is a multiple of the page size: [high] is at least one page
    below [2 ^ 32], and the sweep never returns. *)
Lemma showmappings_range_wraps_counterexample :
  let K := sample_kernel 0 zero_memory in
  let argv := [chars "showmappings"; chars "0xFFFFF000"; chars "0xFFFFF000"] in
  let low := wrap32 (hexaddr2decaddr (nth 1 argv [])) in
  let high := wrap32 (hexaddr2decaddr (nth 2 argv [])) in
  low <= high /\ high + PGSIZE K <= 2 ^ 32
  /\ ~ (exists fuel out r, mon_showmappings K fuel 3 argv 0 = Done out r).
Proof.
  intros K argv low high.
  split; [vm_compute; discriminate|]. split; [vm_compute; discriminate|].
  intros (fuel & out & r & E).
  rewrite mon_showmappings_range in E. fold low high in E.
  destruct (showmappings_loop_wraps K low high) with (fuel := fuel)
    as (out' & E' & _).
  - reflexivity.
  - exists (2 ^ 20). reflexivity.
  - vm_compute. split; [discriminate|reflexivity].
  - vm_compute. discriminate.
  - rewrite E' in E. discriminate.
Qed.

(** ** The address parser *)

Lemma wrap32_eqm a b k : a = b + k * 2 ^ 32 -> wrap32 a = wrap32 b.
Proof. intros ->. unfold wrap32. apply Z_mod_plus_full. Qed.

Lemma wrap_int_eqm z : exists k, wrap_int z = z + k * 2 ^ 32.
Proof.
  exists (- ((z + 2 ^ 31) / 2 ^ 32)). unfold wrap_int.
  rewrite Z.mod_eq by lia. lia.
Qed.

Lemma wrap_int_range z : - 2 ^ 31 <= wrap_int z < 2 ^ 31.
Proof.
  unfold wrap_int.
  pose proof (Z.mod_pos_bound (z + 2 ^ 31) (2 ^ 32)). lia.
Qed.

Lemma wrap32_wrap_int z : wrap32 (wrap_int z) = wrap32 z.
Proof. destruct (wrap_int_eqm z) as [k ->]. now apply wrap32_eqm with k. Qed.

Lemma wrap_int_small z : - 2 ^ 31 <= z < 2 ^ 31 -> wrap_int z = z.
Proof. intros H. unfold wrap_int. rewrite Z.mod_small; lia. Qed.

Lemma wrap_int_wrap32 z : wrap_int (wrap32 z) = wrap_int z.
Proof.
  unfold wrap_int, wrap32. f_equal.
  now rewrite Zplus_mod_idemp_l.
Qed.

Lemma char2int_hex_digit upper d :
  0 <= d < 16 -> char2int (hex_digit upper d) = d.
Proof.
  intros H.
  assert (d = 0 \/ d = 1 \/ d = 2 \/ d = 3 \/ d = 4 \/ d = 5 \/ d = 6
          \/ d = 7 \/ d = 8 \/ d = 9 \/ d = 10 \/ d = 11 \/ d = 12
          \/ d = 13 \/ d = 14 \/ d = 15) as D by lia.
  destruct upper;
    repeat (destruct D as [->|D]; [reflexivity|]); subst d; reflexivity.
Qed.

Lemma hex_digit_not_nul upper d :
  0 <= d < 16 -> is_nul (hex_digit upper d) = false.
Proof.
  intros H.
  assert (d = 0 \/ d = 1 \/ d = 2 \/ d = 3 \/ d = 4 \/ d = 5 \/ d = 6
          \/ d = 7 \/ d = 8 \/ d = 9 \/ d = 10 \/ d = 11 \/ d = 12
          \/ d = 13 \/ d = 14 \/ d = 15) as D by lia.
  destruct upper;
    repeat (destruct D as [->|D]; [reflexivity|]); subst d; reflexivity.
Qed.

Lemma hex_digits_length upper width n :
  length (hex_digits upper width n) = width.
Proof. induction width; cbn; congruence. Qed.

Lemma hex_digits_c_str upper width n :
  c_str (hex_digits upper width n) = hex_digits upper width n.
Proof.
  induction width as [|w IH]; [reflexivity|]. cbn.
  rewrite hex_digit_not_nul by (apply Z.mod_pos_bound; lia). now rewrite IH.
Qed.

Lemma strlen_c_str p : strlen p = length (c_str p).
Proof. induction p as [|c p IH]; cbn; [|destruct (is_nul c); cbn]; congruence. Qed.

Lemma take_strlen p : take (strlen p) p = c_str p.
Proof. induction p as [|c p IH]; cbn; [|destruct (is_nul c); cbn]; congruence. Qed.

Lemma strlen_le_length p : (strlen p <= length p)%nat.
Proof. induction p as [|c p IH]; cbn; [|destruct (is_nul c); cbn]; lia. Qed.

Lemma digits_value_hex_digits upper width n :
  0 <= n -> digits_value (hex_digits upper width n) = n mod 16 ^ Z.of_nat width.
Proof.
  intros Hn. induction width as [|w IH].
  - cbn. now rewrite Z.mod_1_r.
  - cbn [hex_digits digits_value].
    rewrite char2int_hex_digit by (apply Z.mod_pos_bound; lia).
    rewrite hex_digits_length, IH.
    rewrite Nat2Z.inj_succ, Z.pow_succ_r by lia.
    rewrite (Z.mul_comm 16), Z.rem_mul_r by lia. lia.
Qed.

(** The loop adds up the digits from [i] on, each at its place, modulo
    [2 ^ 32], as long as no shift reaches 32 bits. *)
Lemma hexaddr2decaddr_loop_value newaddr len n : forall i result,
  (i + n = len)%nat -> (len <= 8)%nat -> (len <= length newaddr)%nat ->
  wrap32 (hexaddr2decaddr_loop n newaddr len i result)
  = wrap32 (result + digits_value (take n (drop i newaddr))).
Proof.
  induction n as [|n IH]; intros i result Hi H8 Hlen.
  - cbn. now rewrite Z.add_0_r.
  - cbn [hexaddr2decaddr_loop]. rewrite IH by lia.
    destruct (lookup_lt_is_Some_2 newaddr i ltac:(lia)) as [c Hc].
    rewrite (drop_S _ _ _ Hc), (nth_lookup_Some _ _ _ _ Hc).
    cbn [take digits_value].
    rewrite length_take, length_drop, Nat.min_l by lia.
    unfold add_int, shl_int.
    replace ((Z.of_nat len - Z.of_nat i - 1) * 4) with (4 * Z.of_nat n) by lia.
    rewrite Z.mod_small, Z.shiftl_mul_pow2, Z.pow_mul_r by lia.
    change (2 ^ 4) with 16.
    destruct (wrap_int_eqm (char2int c * 16 ^ Z.of_nat n)) as [k1 ->].
    destruct (wrap_int_eqm
                (result + (char2int c * 16 ^ Z.of_nat n + k1 * 2 ^ 32)))
      as [k2 ->].
    apply wrap32_eqm with (k1 + k2). lia.
Qed.

Lemma hexaddr2decaddr_loop_int newaddr len n : forall i result,
  - 2 ^ 31 <= result < 2 ^ 31 ->
  - 2 ^ 31 <= hexaddr2decaddr_loop n newaddr len i result < 2 ^ 31.
Proof.
  induction n as [|n IH]; intros i result H; [exact H|].
  cbn [hexaddr2decaddr_loop]. apply IH, wrap_int_range.
Qed.

(** A string of at most eight digits after the prefix parses to the value of
    its digits, as the [int] of those 32 bits. *)
Lemma hexaddr2decaddr_value hexaddr :
  (strlen (drop 2 hexaddr) <= 8)%nat ->
  hexaddr2decaddr hexaddr = wrap_int (digits_value (c_str (drop 2 hexaddr))).
Proof.
  intros H8. unfold hexaddr2decaddr.
  rewrite <- (wrap_int_small (hexaddr2decaddr_loop _ _ _ _ _))
    by (apply hexaddr2decaddr_loop_int; lia).
  rewrite <- wrap_int_wrap32.
  rewrite hexaddr2decaddr_loop_value
    by (lia || apply strlen_le_length).
  rewrite wrap_int_wrap32, drop_0. now rewrite take_strlen.
Qed.

Lemma hex_width_bound n : 0 <= n -> n < 16 ^ Z.of_nat (hex_width n).
Proof.
  intros Hn. unfold hex_width.
  destruct (Z.leb_spec n 0) as [H0|Hpos]; [cbn; lia|].
  pose proof (Z.log2_nonneg n) as Hl.
  assert (Hq : 0 <= Z.log2 n / 4) by (apply Z.div_pos; lia).
  rewrite Z2Nat.id by lia.
  change 16 with (2 ^ 4). rewrite <- Z.pow_mul_r by lia.
  destruct (Z.log2_spec n Hpos) as [_ Hlt].
  eapply Z.lt_le_trans; [exact Hlt|].
  apply Z.pow_le_mono_r; [lia|].
  pose proof (Z.div_mod (Z.log2 n) 4 ltac:(lia)).
  pose proof (Z.mod_pos_bound (Z.log2 n) 4 ltac:(lia)). lia.
Qed.

Lemma hex_width_32 n : 0 <= n < 2 ^ 32 -> (hex_width n <= 8)%nat.
Proof.
  intros Hn. unfold hex_width.
  destruct (Z.leb_spec n 0) as [H0|Hpos]; [lia|].
  assert (Z.log2 n < 32) by (apply Z.log2_lt_pow2; lia).
  pose proof (Z.log2_nonneg n).
  assert (Z.log2 n / 4 < 8) by (apply Z.div_lt_upper_bound; lia).
  assert (0 <= Z.log2 n / 4) by (apply Z.div_pos; lia). lia.
Qed.

Lemma wrap_int_high z : 2 ^ 31 <= z < 2 ^ 32 -> wrap_int z = z - 2 ^ 32.
Proof.
  intros H. unfold wrap_int.
  replace (z + 2 ^ 31) with (z - 2 ^ 31 + 1 * 2 ^ 32) by lia.
  rewrite Z_mod_plus_full, Z.mod_small; lia.
Qed.

(** What [hexaddr2decaddr] returns on a literal of an integer of the 32-bit
    address width. *)
Lemma hexaddr2decaddr_literal p1 p2 upper width n :
  0 <= n < 2 ^ 32 -> (hex_width n <= width <= 8)%nat ->
  hexaddr2decaddr (hex_literal p1 p2 upper width n) = wrap_int n.
Proof.
  intros Hn Hw.
  rewrite hexaddr2decaddr_value; unfold hex_literal;
    change (drop 2 (p1 :: p2 :: ?l)) with l.
  - rewrite hex_digits_c_str, digits_value_hex_digits by lia.
    rewrite Z.mod_small; [reflexivity|]. split; [lia|].
    eapply Z.lt_le_trans; [apply hex_width_bound; lia|].
    apply Z.pow_le_mono_r; lia.
  - rewrite strlen_c_str, hex_digits_c_str, hex_digits_length. lia.
Qed.

(** C5, as the code has it.  An integer of the 32-bit address width, written
    as a hexadecimal literal, two characters of prefix and then its digits
    in uppercase or lowercase, with or without leading zeros up to eight
    digits, parses back to itself where it is below [2 ^ 31].  From
    [2 ^ 31] on it parses to the integer minus [2 ^ 32]: [hexaddr2decaddr]
    returns an [int], the one with the bits of the integer, which is the
    integer again only once it is converted to [uint32_t], as the callers
    do. *)
Theorem hexaddr2decaddr_roundtrip p1 p2 upper width n :
  0 <= n < 2 ^ 32 -> (hex_width n <= width <= 8)%nat ->
  let r := hexaddr2decaddr (hex_literal p1 p2 upper width n) in
  (n < 2 ^ 31 -> r = n)
  /\ (2 ^ 31 <= n -> r = n - 2 ^ 32)
  /\ wrap32 r = n.
Proof.
  intros Hn Hw r. subst r.
  rewrite (hexaddr2decaddr_literal _ _ _ _ _ Hn Hw). repeat apply conj.
  - intros H. apply wrap_int_small. lia.
  - intros H. apply wrap_int_high. lia.
  - rewrite wrap32_wrap_int. now apply wrap32_small.
Qed.

Lemma hexaddr2decaddr_roundtrip_witness :
  hexaddr2decaddr (chars "0x7fffffff") = 0x7fffffff
  /\ hexaddr2decaddr (chars "0XDEADBEEF") = 0xdeadbeef - 2 ^ 32
  /\ wrap32 (hexaddr2decaddr (chars "0XDEADBEEF")) = 0xdeadbeef
  /\ hexaddr2decaddr (chars "0x0001f") = 0x1f.
Proof.
  pose proof (hexaddr2decaddr_roundtrip "0" "x" false 8 0x7fffffff
                ltac:(lia) ltac:(vm_compute; lia)) as H1.
  pose proof (hexaddr2decaddr_roundtrip "0" "X" true 8 0xdeadbeef
                ltac:(lia) ltac:(vm_compute; lia)) as H2.
  pose proof (hexaddr2decaddr_roundtrip "0" "x" false 5 0x1f
                ltac:(lia) ltac:(vm_compute; lia)) as H3.
  cbv zeta in H1, H2, H3.
  destruct H1 as (H1 & _ & _). destruct H2 as (_ & H2 & H2').
  destruct H3 as (H3 & _ & _).
  split; [exact (H1 ltac:(lia))|]. split; [exact (H2 ltac:(lia))|].
  split; [exact H2' | exact (H3 ltac:(lia))].
Defined.

(** C5, as stated, fails from [2 ^ 31] on: the literal of [0x80000000]
    parses to [- 2 ^ 31], and the literal of [0xffffffff], in uppercase, to
    [-1]. *)
Lemma hexaddr2decaddr_roundtrip_counterexample :
  0 <= 0x80000000 < 2 ^ 32
  /\ hex_literal "0" "x" false 8 0x80000000 = chars "0x80000000"
  /\ hexaddr2decaddr (chars "0x80000000") = - 2 ^ 31
  /\ hexaddr2decaddr (chars "0x80000000") <> 0x80000000
  /\ hex_literal "0" "X" true 8 0xffffffff = chars "0XFFFFFFFF"
  /\ hexaddr2decaddr (chars "0XFFFFFFFF") = -1.
Proof.
  split; [lia|].
  split; [vm_compute; reflexivity|]. split; [vm_compute; reflexivity|].
  split; [vm_compute; discriminate|].
  split; vm_compute; reflexivity.
Qed.

Lemma char2int_nonhex c : is_hex c = false -> char2int c = 0.
Proof.
  unfold is_hex, char2int. cbv zeta.
  change (char_val "0") with 48. change (char_val "9") with 57.
  intros H. apply orb_false_elim in H as [H Hlow].
  apply orb_false_elim in H as [Hdec Hup].
  now rewrite Hdec, Hup, Hlow.
Qed.

Lemma zero_nonhex_nul c : is_nul (zero_nonhex c) = is_nul c.
Proof.
  unfold zero_nonhex. destruct (is_hex c); [reflexivity|].
  destruct (is_nul c) eqn:E; cbn; [exact E | reflexivity].
Qed.

Lemma char2int_zero_nonhex c : char2int (zero_nonhex c) = char2int c.
Proof.
  unfold zero_nonhex. destruct (is_hex c) eqn:Hhex; [reflexivity|].
  destruct (is_nul c) eqn:E; [reflexivity|].
  cbn [orb]. now rewrite (char2int_nonhex c Hhex).
Qed.

Lemma strlen_zero_nonhex p : strlen (map zero_nonhex p) = strlen p.
Proof.
  induction p as [|c p IH]; [reflexivity|]. cbn.
  rewrite zero_nonhex_nul. destruct (is_nul c); congruence.
Qed.

Lemma nth_zero_nonhex p i :
  nth i (map zero_nonhex p) NUL = zero_nonhex (nth i p NUL).
Proof. apply (map_nth zero_nonhex p NUL i). Qed.

Lemma hexaddr2decaddr_loop_zero_nonhex newaddr len n : forall i result,
  hexaddr2decaddr_loop n (map zero_nonhex newaddr) len i result
  = hexaddr2decaddr_loop n newaddr len i result.
Proof.
  induction n as [|n IH]; intros i result; [reflexivity|].
  cbn [hexaddr2decaddr_loop].
  now rewrite nth_zero_nonhex, char2int_zero_nonhex, IH.
Qed.

(** C6.  [char2int] maps the characters 0 to 9 to 0..9, A to F to 10..15,
    a to f to 10..15, and every other character to 0; it is a total
    function, with no other outcome to signal an error.  So a string parses
    to what it parses to with a digit 0 in place of each character that is no
    digit, and a string of up to eight characters after the prefix to the
    value of its digits with 0 for those characters. *)
Theorem char2int_digits :
  (forall c, char_val "0" <= char_val c <= char_val "9" ->
             char2int c = char_val c - char_val "0"
             /\ 0 <= char2int c <= 9)
  /\ (forall c, char_val "A" <= char_val c <= char_val "F" ->
                char2int c = char_val c - char_val "A" + 10
                /\ 10 <= char2int c <= 15)
  /\ (forall c, char_val "a" <= char_val c <= char_val "f" ->
                char2int c = char_val c - char_val "a" + 10
                /\ 10 <= char2int c <= 15)
  /\ (forall c, is_hex c = false -> char2int c = 0)
  /\ (forall s, hexaddr2decaddr (map zero_nonhex s) = hexaddr2decaddr s)
  /\ (forall s, (strlen (drop 2 s) <= 8)%nat ->
                wrap32 (hexaddr2decaddr s)
                = wrap32 (digits_value (c_str (drop 2 s)))).
Proof.
  change (char_val "0") with 48. change (char_val "9") with 57.
  change (char_val "A") with 65. change (char_val "F") with 70.
  change (char_val "a") with 97. change (char_val "f") with 102.
  repeat apply conj.
  - intros c H. unfold char2int. cbv zeta.
    destruct (Z.leb_spec 48 (char_val c)), (Z.leb_spec (char_val c) 57);
      cbn [andb]; lia.
  - intros c H. unfold char2int. cbv zeta.
    change (char_val "A") with 65. change (char_val "F") with 70.
    destruct (Z.leb_spec 48 (char_val c)), (Z.leb_spec (char_val c) 57),
      (Z.leb_spec 65 (char_val c)), (Z.leb_spec (char_val c) 70);
      cbn [andb]; lia.
  - intros c H. unfold char2int. cbv zeta.
    change (char_val "A") with 65. change (char_val "F") with 70.
    change (char_val "a") with 97. change (char_val "f") with 102.
    destruct (Z.leb_spec 48 (char_val c)), (Z.leb_spec (char_val c) 57),
      (Z.leb_spec 65 (char_val c)), (Z.leb_spec (char_val c) 70),
      (Z.leb_spec 97 (char_val c)), (Z.leb_spec (char_val c) 102);
      cbn [andb]; lia.
  - apply char2int_nonhex.
  - intros s. unfold hexaddr2decaddr.
    rewrite skipn_map, strlen_zero_nonhex.
    apply hexaddr2decaddr_loop_zero_nonhex.
  - intros s H. rewrite hexaddr2decaddr_value by assumption.
    apply wrap32_wrap_int.
Qed.

Lemma char2int_digits_witness :
  char2int "7" = 7 /\ char2int "C" = 12 /\ char2int "e" = 14
  /\ char2int "g" = 0
  /\ hexaddr2decaddr (chars "0x1g?A") = hexaddr2decaddr (chars "0x100A")
  /\ wrap32 (hexaddr2decaddr (chars "0x1g?A")) = 0x100A.
Proof.
  destruct char2int_digits as (D & U & L & N & Z0 & V).
  repeat apply conj.
  - destruct (D "7"%char ltac:(vm_compute; split; discriminate)) as [-> _].
    reflexivity.
  - destruct (U "C"%char ltac:(vm_compute; split; discriminate)) as [-> _].
    reflexivity.
  - destruct (L "e"%char ltac:(vm_compute; split; discriminate)) as [-> _].
    reflexivity.
  - apply N. reflexivity.
  - rewrite <- (Z0 (chars "0x1g?A")). reflexivity.
  - rewrite (V (chars "0x1g?A")) by (vm_compute; lia). reflexivity.
Defined.

(** ** The tokenizer *)

Lemma is_nul_eq c : is_nul c = true -> c = NUL.
Proof. apply Ascii.eqb_eq. Qed.

(** The test of the first inner loop of [runcmd]. *)
Lemma gobble_test c : negb (is_nul c) && strchr WHITESPACE c = is_space c.
Proof.
  unfold strchr. destruct (is_nul c) eqn:E; [|reflexivity].
  apply is_nul_eq in E. now subst c.
Qed.

(** The test of the second inner loop. *)
Lemma scan_test c :
  negb (is_nul c) && negb (strchr WHITESPACE c) = is_arg_char c.
Proof. unfold strchr, is_arg_char. now destruct (is_nul c). Qed.

Lemma is_space_not_nul c : is_space c = true -> is_nul c = false.
Proof.
  intros H. destruct (is_nul c) eqn:E; [|reflexivity].
  apply is_nul_eq in E. now subst c.
Qed.

Lemma is_arg_char_not_nul c : is_arg_char c = true -> is_nul c = false.
Proof. unfold is_arg_char. now destruct (is_nul c). Qed.

Lemma is_arg_char_not_space c : is_arg_char c = true -> is_space c = false.
Proof. unfold is_arg_char. destruct (is_space c); [|reflexivity]. now rewrite andb_false_r. Qed.

Lemma peek_app pre suf : peek (pre ++ suf) (length pre) = deref suf.
Proof. unfold peek. now rewrite drop_app_length. Qed.

(** A string is a run of characters that pass [p], then a rest that does
    not start with one. *)
Lemma span (p : ascii -> bool) s :
  p NUL = false ->
  exists w rest,
    s = w ++ rest /\ Forall (fun c => p c = true) w /\ p (deref rest) = false.
Proof.
  intros Hnul. induction s as [|c s (w & rest & -> & Hw & Hrest)].
  - now exists [], [].
  - destruct (p c) eqn:E.
    + exists (c :: w), rest. repeat split; [now constructor | assumption].
    + exists [], (c :: w ++ rest). repeat split; [constructor | assumption].
Qed.

Lemma gobble_spec sp : forall pre rest n,
  Forall (fun c => is_space c = true) sp ->
  is_space (deref rest) = false ->
  (length sp <= n)%nat ->
  gobble n (pre ++ sp ++ rest) (length pre)
  = ((pre ++ replicate (length sp) NUL) ++ rest,
     length (pre ++ replicate (length sp) NUL)).
Proof.
  induction sp as [|c sp IH]; intros pre rest n Hsp Hrest Hn.
  - cbn [app length replicate]. rewrite app_nil_r.
    destruct n; [reflexivity|].
    cbn [gobble]. now rewrite peek_app, gobble_test, Hrest.
  - destruct n as [|n]; [cbn in Hn; lia|].
    apply Forall_cons in Hsp as [Hc Hsp].
    cbn [gobble]. rewrite peek_app. cbn [app deref].
    rewrite gobble_test, Hc.
    rewrite insert_app_r_alt, Nat.sub_diag by lia. cbn [insert list_insert].
    replace (pre ++ NUL :: sp ++ rest) with ((pre ++ [NUL]) ++ sp ++ rest)
      by now rewrite <- app_assoc.
    replace (S (length pre)) with (length (pre ++ [NUL]))
      by (rewrite length_app; cbn; lia).
    rewrite IH by (assumption || cbn in Hn; lia).
    cbn [length replicate]. now rewrite <- (app_assoc pre [NUL]).
Qed.

Lemma scan_arg_spec w : forall pre rest n,
  Forall (fun c => is_arg_char c = true) w ->
  is_arg_char (deref rest) = false ->
  (length w <= n)%nat ->
  scan_arg n (pre ++ w ++ rest) (length pre) = length (pre ++ w).
Proof.
  induction w as [|c w IH]; intros pre rest n Hw Hrest Hn.
  - cbn [app]. rewrite app_nil_r.
    destruct n; [reflexivity|].
    cbn [scan_arg]. now rewrite peek_app, scan_test, Hrest.
  - destruct n as [|n]; [cbn in Hn; lia|].
    apply Forall_cons in Hw as [Hc Hw].
    cbn [scan_arg]. rewrite peek_app. cbn [app deref].
    rewrite scan_test, Hc.
    replace (pre ++ c :: w ++ rest) with ((pre ++ [c]) ++ w ++ rest)
      by now rewrite <- app_assoc.
    replace (S (length pre)) with (length (pre ++ [c]))
      by (rewrite length_app; cbn; lia).
    rewrite IH by (assumption || cbn in Hn; lia).
    now rewrite <- (app_assoc pre [c]).
Qed.

Lemma c_str_app w rest :
  Forall (fun c => is_nul c = false) w -> c_str (w ++ rest) = w ++ c_str rest.
Proof.
  induction 1 as [|c w Hc Hw IH]; [reflexivity|].
  cbn. now rewrite Hc, IH.
Qed.

Lemma c_str_nul p : is_nul (deref p) = true -> c_str p = [].
Proof. destruct p as [|c p]; [reflexivity|]. cbn. now intros ->. Qed.

Lemma blank_spaces sp rest :
  Forall (fun c => is_space c = true) sp ->
  blank (sp ++ rest) = replicate (length sp) NUL ++ blank rest.
Proof.
  induction 1 as [|c sp Hc Hsp IH]; [reflexivity|].
  cbn [app blank length replicate].
  now rewrite (is_space_not_nul c Hc), Hc, IH.
Qed.

Lemma blank_args w rest :
  Forall (fun c => is_arg_char c = true) w ->
  blank (w ++ rest) = w ++ blank rest.
Proof.
  induction 1 as [|c w Hc Hw IH]; [reflexivity|].
  cbn [app blank].
  now rewrite (is_arg_char_not_nul c Hc), (is_arg_char_not_space c Hc), IH.
Qed.

Lemma blank_nul rest : is_nul (deref rest) = true -> blank rest = rest.
Proof. destruct rest as [|c rest]; [reflexivity|]. cbn. now intros ->. Qed.

(** After an argument the parsed buffer has a terminator. *)
Lemma c_str_blank_after_arg rest :
  is_arg_char (deref rest) = false -> c_str (blank rest) = [].
Proof.
  destruct rest as [|c rest]; [reflexivity|]. cbn. unfold is_arg_char.
  destruct (is_nul c) eqn:E; cbn; [now rewrite E|].
  now intros ->%negb_false_iff.
Qed.

Lemma c_str_after_arg rest :
  is_arg_char (deref rest) = false ->
  c_str rest = [] \/ is_space (deref (c_str rest)) = true.
Proof.
  destruct rest as [|c rest]; [now left|]. cbn. unfold is_arg_char.
  destruct (is_nul c) eqn:E; cbn; [now left|].
  intros H%negb_false_iff. now right.
Qed.

Lemma fields_not_nil s : fields s <> [].
Proof.
  destruct s as [|c s]; cbn [fields]; [discriminate|].
  destruct (is_space c); [discriminate|]. now destruct (fields s).
Qed.

Lemma split_ws_spaces sp y :
  Forall (fun c => is_space c = true) sp -> split_ws (sp ++ y) = split_ws y.
Proof.
  induction 1 as [|c sp Hc Hsp IH]; [reflexivity|].
  unfold split_ws in *. cbn [app fields]. now rewrite Hc.
Qed.

Lemma fields_arg w y :
  Forall (fun c => is_space c = false) w ->
  fields (w ++ y) = (w ++ hd [] (fields y)) :: tl (fields y).
Proof.
  induction 1 as [|c w Hc Hw IH]; cbn [app].
  - pose proof (fields_not_nil y). now destruct (fields y).
  - cbn [fields]. now rewrite Hc, IH.
Qed.

Lemma split_ws_arg w y :
  w <> [] -> Forall (fun c => is_space c = false) w ->
  y = [] \/ is_space (deref y) = true ->
  split_ws (w ++ y) = w :: split_ws y.
Proof.
  intros Hne Hw Hy. unfold split_ws. rewrite fields_arg by assumption.
  assert (E : fields y = [] :: tl (fields y)).
  { destruct Hy as [->|Hy]; [reflexivity|].
    destruct y as [|c y]; [discriminate|]. cbn [deref] in Hy.
    cbn [fields]. now rewrite Hy. }
  rewrite E at 3. rewrite E at 1. cbn [hd List.filter nonempty].
  rewrite app_nil_r. now destruct w.
Qed.

(** The loop of [runcmd] on the buffer [pre ++ suf] with [buf] at [suf]:
    with room for the arguments of [suf] it ends with the rest of the buffer
    blanked and their pointers added to [argv]; without, it gives up. *)
Lemma parse_loop_spec n : forall pre suf argv,
  (length suf < n)%nat -> (length argv <= 15)%nat ->
  ((length argv + length (split_ws (c_str suf)) <= 15)%nat ->
   exists offs,
     parse_loop n (pre ++ suf) (length pre) argv
     = Some (Args (pre ++ blank suf) (argv ++ offs))
     /\ tokens (pre ++ blank suf) offs = split_ws (c_str suf))
  /\ ((15 < length argv + length (split_ws (c_str suf)))%nat ->
      parse_loop n (pre ++ suf) (length pre) argv = Some Too_many).
Proof.
  induction n as [|n IH]; intros pre suf argv Hn Hargv; [lia|].
  cbn [parse_loop].
  replace (length (pre ++ suf) - length pre)%nat with (length suf)
    by (rewrite length_app; lia).
  destruct (span is_space suf eq_refl) as (sp & rest & -> & Hsp & Hrest).
  rewrite length_app in Hn.
  rewrite gobble_spec by (assumption || rewrite length_app; lia).
  rewrite peek_app.
  rewrite c_str_app
    by (eapply Forall_impl; [exact Hsp | apply is_space_not_nul]).
  rewrite split_ws_spaces, blank_spaces by assumption.
  destruct (is_nul (deref rest)) eqn:Hnul.
  - rewrite (c_str_nul _ Hnul), (blank_nul _ Hnul). cbn [split_ws fields
      List.filter nonempty length]. split; [|lia].
    intros _. exists []. rewrite !app_nil_r, <- app_assoc. now split.
  - assert (Harg : is_arg_char (deref rest) = true)
      by (unfold is_arg_char; now rewrite Hnul, Hrest).
    destruct (span is_arg_char rest eq_refl) as (w & rest' & -> & Hw & Hrest').
    assert (Hne : w <> []) by (intros ->; cbn in Harg; congruence).
    assert (Hlen : (0 < length w)%nat)
      by (destruct w; [congruence | cbn; lia]).
    rewrite c_str_app
      by (eapply Forall_impl; [exact Hw | apply is_arg_char_not_nul]).
    rewrite split_ws_arg;
      [|assumption
       |eapply Forall_impl; [exact Hw | apply is_arg_char_not_space]
       |now apply c_str_after_arg].
    cbn [length]. rewrite blank_args by assumption.
    set (pre1 := pre ++ replicate (length sp) NUL).
    destruct (Z.of_nat (length argv) =? MAXARGS - 1) eqn:Hfull.
    + apply Z.eqb_eq in Hfull. unfold MAXARGS in Hfull. split; [lia|easy].
    + apply Z.eqb_neq in Hfull. unfold MAXARGS in Hfull.
      replace (length (pre1 ++ w ++ rest') - length pre1)%nat
        with (length (w ++ rest')) by (rewrite (length_app pre1); lia).
      rewrite scan_arg_spec by (assumption || rewrite length_app; lia).
      rewrite (app_assoc pre1 w rest').
      rewrite !length_app in Hn.
      destruct (IH (pre1 ++ w) rest' (argv ++ [length pre1]))
        as [IHok IHfull]; [lia | rewrite length_app; cbn; lia |].
      rewrite length_app in IHok, IHfull. cbn [length] in IHok, IHfull.
      assert (Eline : pre ++ replicate (length sp) NUL ++ w ++ blank rest'
                      = (pre1 ++ w) ++ blank rest')
        by (subst pre1; now rewrite <- !app_assoc).
      split.
      * intros Hroom. destruct IHok as (offs & E & T); [lia|].
        exists (length pre1 :: offs). rewrite E, Eline. split.
        -- now rewrite <- (app_assoc argv).
        -- cbn [tokens map]. fold (tokens ((pre1 ++ w) ++ blank rest') offs).
           rewrite T. f_equal.
           rewrite <- app_assoc, drop_app_length.
           rewrite c_str_app
             by (eapply Forall_impl; [exact Hw | apply is_arg_char_not_nul]).
           now rewrite c_str_blank_after_arg, app_nil_r.
      * intros Hfull'. apply IHfull. lia.
Qed.

Lemma parse_spec buf :
  ((length (split_ws (c_str buf)) <= 15)%nat ->
   exists argv,
     parse buf = Some (Args (blank buf) argv)
     /\ tokens (blank buf) argv = split_ws (c_str buf))
  /\ ((15 < length (split_ws (c_str buf)))%nat -> parse buf = Some Too_many).
Proof.
  unfold parse.
  destruct (parse_loop_spec (S (length buf)) [] buf []) as [Hok Hfull];
    [lia | cbn; lia |].
  cbn [app length Nat.add] in Hok, Hfull. split; assumption.
Qed.

Lemma split_ws_all_spaces s :
  Forall (fun c => is_space c = true) s -> split_ws s = [].
Proof.
  intros H. rewrite <- (app_nil_r s). now rewrite split_ws_spaces.
Qed.

(** One separator or a run of them: the fields between are empty and
    dropped. *)
Lemma fields_run a b c1 c2 :
  is_space c1 = true -> is_space c2 = true ->
  hd [] (fields (a ++ c1 :: c2 :: b)) = hd [] (fields (a ++ c1 :: b))
  /\ List.filter nonempty (tl (fields (a ++ c1 :: c2 :: b)))
     = List.filter nonempty (tl (fields (a ++ c1 :: b))).
Proof.
  intros H1 H2. induction a as [|c a [IHhd IHtl]]; cbn [app fields].
  - now rewrite H1, H2.
  - destruct (is_space c); cbn [hd tl List.filter].
    + split; [reflexivity|].
      pose proof (fields_not_nil (a ++ c1 :: c2 :: b)).
      pose proof (fields_not_nil (a ++ c1 :: b)).
      destruct (fields (a ++ c1 :: c2 :: b)), (fields (a ++ c1 :: b));
        try congruence.
      cbn [hd tl] in IHhd, IHtl. subst. cbn [List.filter]. now rewrite IHtl.
    + pose proof (fields_not_nil (a ++ c1 :: c2 :: b)).
      pose proof (fields_not_nil (a ++ c1 :: b)).
      destruct (fields (a ++ c1 :: c2 :: b)), (fields (a ++ c1 :: b));
        try congruence.
      cbn [hd tl] in *. now subst.
Qed.

Lemma split_ws_run a b c1 c2 :
  is_space c1 = true -> is_space c2 = true ->
  split_ws (a ++ c1 :: c2 :: b) = split_ws (a ++ c1 :: b).
Proof.
  intros H1 H2. destruct (fields_run a b c1 c2 H1 H2) as [Hhd Htl].
  unfold split_ws.
  pose proof (fields_not_nil (a ++ c1 :: c2 :: b)).
  pose proof (fields_not_nil (a ++ c1 :: b)).
  destruct (fields (a ++ c1 :: c2 :: b)), (fields (a ++ c1 :: b));
    try congruence.
  cbn [hd tl] in *. subst. cbn [List.filter]. now rewrite Htl.
Qed.

Lemma c_str_app_cases a r :
  c_str (a ++ r)
  = if forallb (fun c => negb (is_nul c)) a then a ++ c_str r else c_str a.
Proof.
  induction a as [|c a IH]; cbn [app forallb c_str]; [reflexivity|].
  destruct (is_nul c); cbn [negb andb]; [reflexivity|].
  rewrite IH. now destruct (forallb _ a).
Qed.

Lemma split_ws_c_str_run a b c1 c2 :
  is_space c1 = true -> is_space c2 = true ->
  split_ws (c_str (a ++ c1 :: c2 :: b)) = split_ws (c_str (a ++ c1 :: b)).
Proof.
  intros H1 H2. rewrite !c_str_app_cases.
  destruct (forallb _ a); [|reflexivity]. cbn [c_str].
  rewrite (is_space_not_nul _ H1), (is_space_not_nul _ H2).
  now apply split_ws_run.
Qed.

(** The loop of [runcmd] always comes to an end. *)
Lemma parse_total buf : parse buf <> None.
Proof.
  destruct (Nat.le_gt_cases (length (split_ws (c_str buf))) 15) as [H|H].
  - destruct (proj1 (parse_spec buf) H) as (argv & -> & _). discriminate.
  - rewrite (proj2 (parse_spec buf) H). discriminate.
Qed.

Lemma runcmd_with_args invoke fuel buf tf line argv :
  parse buf = Some (Args line argv) ->
  runcmd_with invoke fuel buf tf
  = if Z.of_nat (length argv) =? 0 then Done [] 0
    else lookup_command invoke commands fuel (Z.of_nat (length argv))
           (map (fun p => drop p line) argv) tf.
Proof. intros E. unfold runcmd_with. now rewrite E. Qed.

(** C7, as the code has it.  On a line of at most 15 arguments the loop of
    [runcmd] ends with one pointer for each non-empty substring that
    splitting the line on tab, carriage return, newline and space gives, in
    order, each pointing in the parsed buffer at that substring and its
    terminator; that many arguments, with these strings, are what the
    command is looked up and called with.  A line of nothing but whitespace
    has no argument, and a separator more next to a separator of the line
    leaves the arguments as they are. *)
Theorem runcmd_tokens buf :
  (length (split_ws (c_str buf)) <= 15)%nat ->
  exists line argv,
    parse buf = Some (Args line argv)
    /\ tokens line argv = split_ws (c_str buf)
    /\ length argv = length (split_ws (c_str buf))
    /\ (Forall (fun c => is_space c = true) (c_str buf) -> argv = [])
    /\ (forall a b c1 c2,
          buf = a ++ c1 :: b -> is_space c1 = true -> is_space c2 = true ->
          exists line' argv',
            parse (a ++ c1 :: c2 :: b) = Some (Args line' argv')
            /\ tokens line' argv' = tokens line argv)
    /\ (forall invoke fuel tf,
          runcmd_with invoke fuel buf tf
          = match argv with
            | [] => Done [] 0
            | _ :: _ =>
                lookup_command invoke commands fuel (Z.of_nat (length argv))
                  (map (fun p => drop p line) argv) tf
            end).
Proof.
  intros Hroom. destruct (proj1 (parse_spec buf) Hroom) as (argv & E & T).
  exists (blank buf), argv.
  assert (Hlen : length argv = length (split_ws (c_str buf)))
    by (rewrite <- T; unfold tokens; now rewrite length_map).
  repeat split; try assumption.
  - intros Hsp. rewrite (split_ws_all_spaces _ Hsp) in Hlen.
    now destruct argv.
  - intros a b c1 c2 -> H1 H2.
    destruct (proj1 (parse_spec (a ++ c1 :: c2 :: b))) as (argv' & E' & T').
    { now rewrite split_ws_c_str_run. }
    exists (blank (a ++ c1 :: c2 :: b)), argv'. split; [exact E'|].
    rewrite T, T'. now apply split_ws_c_str_run.
  - intros invoke fuel tf. rewrite (runcmd_with_args _ _ _ _ _ _ E).
    now destruct argv.
Qed.

Lemma runcmd_tokens_witness :
  exists line argv,
    parse (chars "  showmappings 0x1000	0x3000 ") = Some (Args line argv)
    /\ tokens line argv
       = [chars "showmappings"; chars "0x1000"; chars "0x3000"].
Proof.
  destruct (runcmd_tokens (chars "  showmappings 0x1000	0x3000 "))
    as (line & argv & E & T & _).
  - vm_compute. lia.
  - exists line, argv. split; [exact E|]. rewrite T. reflexivity.
Defined.

(** C7, as stated, fails on a line of 16 arguments: splitting gives 16
    substrings, and the loop of [runcmd] gives up on the line. *)
Lemma runcmd_tokens_counterexample :
  let buf := chars "a b c d e f g h i j k l m n o p" in
  length (split_ws (c_str buf)) = 16%nat
  /\ parse buf = Some Too_many
  /\ ~ (exists line argv,
          parse buf = Some (Args line argv)
          /\ tokens line argv = split_ws (c_str buf)).
Proof.
  intros buf. split; [reflexivity|]. split; [reflexivity|].
  intros (line & argv & E & _). vm_compute in E. discriminate.
Qed.

(** C8.  On a line of 16 arguments or more [runcmd] prints the one report
    of too many arguments and returns 0, whatever the functions of the
    command table would do: none of them is called. *)
Theorem runcmd_too_many buf :
  (16 <= length (split_ws (c_str buf)))%nat ->
  (forall invoke fuel tf,
     runcmd_with invoke fuel buf tf
     = Done [Cprintf "Too many arguments (max %d)\n" [AInt 16]] 0)
  /\ (forall K fuel tf,
        runcmd K fuel buf tf
        = Done [Cprintf "Too many arguments (max %d)\n" [AInt 16]] 0).
Proof.
  intros Hmany.
  assert (E : parse buf = Some Too_many)
    by (apply (proj2 (parse_spec buf)); lia).
  split; intros; unfold runcmd, runcmd_with; now rewrite E.
Qed.

Lemma runcmd_too_many_witness :
  runcmd (sample_kernel 0 zero_memory) 0
    (chars "showmappings 1 2 3 4 5 6 7 8 9 10 11 12 13 14 15") 0
  = Done [Cprintf "Too many arguments (max %d)\n" [AInt 16]] 0.
Proof.
  apply (proj2 (runcmd_too_many
                  (chars "showmappings 1 2 3 4 5 6 7 8 9 10 11 12 13 14 15")
                  ltac:(vm_compute; lia))).
Defined.

(** ** The dispatcher *)

Lemma N_of_ascii_inj a b : N_of_ascii a = N_of_ascii b -> a = b.
Proof.
  intros H. rewrite <- (ascii_N_embedding a), <- (ascii_N_embedding b).
  now rewrite H.
Qed.

Lemma is_nul_false c : is_nul c = false -> c <> NUL.
Proof. apply Ascii.eqb_neq. Qed.

(** [strcmp] is 0 exactly on equal strings. *)
Lemma strcmp_0_iff p : forall q, strcmp p q = 0 <-> c_str p = c_str q.
Proof.
  induction p as [|c p IH]; intros q.
  - cbn [strcmp c_str]. destruct q as [|d q]; cbn [deref c_str].
    + easy.
    + destruct (is_nul d) eqn:E.
      * apply is_nul_eq in E. now subst d.
      * split; [|discriminate]. intros H.
        apply is_nul_false in E. contradict E.
        apply N_of_ascii_inj. change (N_of_ascii NUL) with 0%N. lia.
  - cbn [strcmp c_str].
    destruct (is_nul c) eqn:Ec; cbn [negb andb].
    + apply is_nul_eq in Ec. subst c. change (N_of_ascii NUL) with 0%N.
      destruct q as [|d q]; cbn [deref c_str]; [easy|].
      destruct (is_nul d) eqn:E.
      * apply is_nul_eq in E. now subst d.
      * split; [|discriminate]. intros H.
        apply is_nul_false in E. contradict E.
        apply N_of_ascii_inj. change (N_of_ascii NUL) with 0%N. lia.
    + destruct (Ascii.eqb c (deref q)) eqn:Eq.
      * apply Ascii.eqb_eq in Eq. destruct q as [|d q]; cbn [deref] in Eq.
        -- subst c. discriminate.
        -- subst d. cbn [tl c_str]. rewrite Ec, IH.
           split; [now intros -> | now intros [= ->]].
      * apply Ascii.eqb_neq in Eq. split.
        -- intros H. contradict Eq. apply N_of_ascii_inj. lia.
        -- intros H. contradict Eq.
           destruct q as [|d q]; cbn [deref c_str] in *; [discriminate|].
           destruct (is_nul d); [discriminate|]. now injection H.
Qed.

Lemma backtrace_loop_ret K fuel : forall ebp out r,
  backtrace_loop K fuel ebp = Done out r -> r = 0.
Proof.
  induction fuel as [|fuel IH]; intros ebp out r E.
  - cbn in E. destruct (ebp =? 0); [now injection E | discriminate].
  - cbn [backtrace_loop] in E. destruct (ebp =? 0); [now injection E|].
    apply bind_done in E as (o1 & [] & o2 & _ & E & _).
    apply bind_done in E as (o3 & next & o4 & _ & E & _).
    eapply IH, E.
Qed.

Lemma showmappings_loop_ret K fuel : forall low high out r,
  showmappings_loop K fuel low high = Done out r -> r = 0.
Proof.
  induction fuel as [|fuel IH]; intros low high out r E.
  - cbn in E. destruct (low <=? high); [discriminate | now injection E].
  - cbn [showmappings_loop] in E.
    destruct (low <=? high); [|now injection E].
    destruct (showmappings_loop K fuel (add32 low (PGSIZE K)) high) eqn:E';
      try discriminate.
    cbn [emit] in E. injection E as _ <-. eapply IH, E'.
Qed.

(** No function of the command table returns anything but 0. *)
Lemma call_ret K f fuel argc argv tf out r :
  call K f fuel argc argv tf = Done out r -> r = 0.
Proof.
  destruct f; cbn [call].
  - unfold mon_help. now intros [= _ <-].
  - unfold mon_kerninfo. now intros [= _ <-].
  - rewrite mon_backtrace_loop. intros E.
    destruct (backtrace_loop K fuel (wrap32 (read_ebp K))) eqn:E';
      try discriminate.
    cbn [emit] in E. injection E as _ <-. eapply backtrace_loop_ret, E'.
  - unfold mon_showmappings. intros E.
    destruct (argc =? 2); [cbn [emit] in E; now injection E|].
    destruct (argc =? 3); [|now injection E].
    eapply showmappings_loop_ret, E.
Qed.

Lemma lookup_command_ret K cmds fuel argc argv tf out r :
  lookup_command (call K) cmds fuel argc argv tf = Done out r -> r = 0.
Proof.
  induction cmds as [|c cmds IH]; cbn [lookup_command].
  - now intros [= _ <-].
  - destruct (strcmp (nth 0 argv []) (chars (name c)) =? 0);
      [apply call_ret | exact IH].
Qed.

Lemma runcmd_ret K fuel buf tf out r :
  runcmd K fuel buf tf = Done out r -> r = 0.
Proof.
  unfold runcmd, runcmd_with.
  destruct (parse buf) as [[|line argv]|]; [now intros [= _ <-] | |discriminate].
  destruct (Z.of_nat (length argv) =? 0); [now intros [= _ <-]|].
  apply lookup_command_ret.
Qed.

(** The lookup of a command by the string of the first argument. *)
Lemma lookup_command_found invoke cmds fuel argc argv tf c :
  forall before after,
  cmds = before ++ c :: after ->
  c_str (nth 0 argv []) = chars (name c) ->
  c_str (chars (name c)) = chars (name c) ->
  Forall (fun c' => c_str (chars (name c')) <> chars (name c)) before ->
  lookup_command invoke cmds fuel argc argv tf
  = invoke (func c) fuel argc argv tf.
Proof.
  intros before after -> Harg Hname Hbefore.
  induction Hbefore as [|c' before Hc' Hbefore IH]; cbn [app lookup_command].
  - replace (strcmp (nth 0 argv []) (chars (name c)) =? 0) with true;
      [reflexivity|].
    symmetry. apply Z.eqb_eq, strcmp_0_iff. congruence.
  - replace (strcmp (nth 0 argv []) (chars (name c')) =? 0) with false;
      [exact IH|].
    symmetry. apply Z.eqb_neq. rewrite strcmp_0_iff. congruence.
Qed.

Lemma lookup_command_unknown invoke cmds fuel argc argv tf :
  Forall (fun c => c_str (chars (name c)) <> c_str (nth 0 argv [])) cmds ->
  lookup_command invoke cmds fuel argc argv tf
  = Done [Cprintf "Unknown command '%s'\n" [AStr (c_str (nth 0 argv []))]] 0.
Proof.
  induction 1 as [|c cmds Hc Hcmds IH]; cbn [lookup_command]; [reflexivity|].
  replace (strcmp (nth 0 argv []) (chars (name c)) =? 0) with false;
    [exact IH|].
  symmetry. apply Z.eqb_neq. rewrite strcmp_0_iff. congruence.
Qed.

(** What [runcmd] does on a line of at most 15 arguments, the first of them
    [t]: the lookup of [t] in the command table. *)
Lemma runcmd_dispatch K fuel buf tf t rest :
  split_ws (c_str buf) = t :: rest -> (length rest < 15)%nat ->
  exists argv,
    length argv = S (length rest)
    /\ c_str (nth 0 argv []) = t
    /\ runcmd K fuel buf tf
       = lookup_command (call K) commands fuel (Z.of_nat (S (length rest)))
           argv tf.
Proof.
  intros Ht Hroom.
  destruct (proj1 (parse_spec buf)) as (argv & E & T).
  { rewrite Ht. cbn. lia. }
  rewrite Ht in T.
  assert (Hlen : length argv = S (length rest))
    by (apply (f_equal length) in T; unfold tokens in T;
        now rewrite length_map in T).
  destruct argv as [|p argv]; [discriminate|].
  exists (map (fun p => drop p (blank buf)) (p :: argv)).
  rewrite length_map. split; [exact Hlen|]. split.
  - cbn [map nth]. now injection T.
  - unfold runcmd. rewrite (runcmd_with_args _ _ _ _ _ _ E). now rewrite Hlen.
Qed.

Lemma monitor_loop_never_done K fuel input tf out :
  monitor_loop K fuel input tf <> Done out tt.
Proof.
  revert out. induction input as [|[buf|] input IH]; intros out;
    cbn [monitor_loop]; [discriminate | | apply IH].
  destruct (runcmd K fuel buf tf) as [o r|o|o] eqn:E; [|discriminate..].
  rewrite (runcmd_ret _ _ _ _ _ _ E). cbn [Z.ltb Z.compare].
  destruct (monitor_loop K fuel input tf) as [o' []|o'|o'];
    [now destruct (IH o') | discriminate..].
Qed.

(** A line whose first argument is the name of the command [c] calls the
    function of [c]. *)
Lemma runcmd_command K fuel buf tf c before after rest :
  commands = before ++ c :: after ->
  Forall (fun c' => c_str (chars (name c')) <> chars (name c)) before ->
  c_str (chars (name c)) = chars (name c) ->
  split_ws (c_str buf) = chars (name c) :: rest -> (length rest < 15)%nat ->
  exists argv,
    length argv = S (length rest)
    /\ runcmd K fuel buf tf
       = call K (func c) fuel (Z.of_nat (S (length rest))) argv tf.
Proof.
  intros Hcmds Hbefore Hname Ht Hroom.
  destruct (runcmd_dispatch K fuel buf tf _ _ Ht Hroom) as (argv & L & A & E).
  exists argv. split; [exact L|]. rewrite E.
  now apply (lookup_command_found _ _ _ _ _ _ c before after).
Qed.

Ltac other_names :=
  repeat constructor;
  let H := fresh in intros H; vm_compute in H; discriminate.

(** C9, as the code has it.  [runcmd] never returns a negative value: on
    every line and in every context, a value it returns is 0.  It returns 0
    on a line without arguments, on a line of 16 arguments or more, on a
    line whose first argument is no command, on [help] and [kerninfo]
    lines, and on a [showmappings] line with one address or with the wrong
    number of arguments.  So the loop of [monitor] is never left. *)
Theorem runcmd_returns_zero K buf tf :
  let toks := split_ws (c_str buf) in
  (forall fuel out r, runcmd K fuel buf tf = Done out r -> r = 0)
  /\ (toks = [] -> forall fuel, runcmd K fuel buf tf = Done [] 0)
  /\ ((16 <= length toks)%nat ->
      forall fuel,
        runcmd K fuel buf tf
        = Done [Cprintf "Too many arguments (max %d)\n" [AInt 16]] 0)
  /\ (forall t rest,
        toks = t :: rest -> (length rest < 15)%nat ->
        Forall (fun c => chars (name c) <> t) commands ->
        forall fuel,
          runcmd K fuel buf tf
          = Done [Cprintf "Unknown command '%s'\n" [AStr t]] 0)
  /\ (forall t rest,
        toks = t :: rest -> (length rest < 15)%nat ->
        t = chars "help" \/ t = chars "kerninfo" ->
        forall fuel, exists out, runcmd K fuel buf tf = Done out 0)
  /\ (forall rest,
        toks = chars "showmappings" :: rest -> (length rest < 15)%nat ->
        length rest <> 2%nat ->
        forall fuel, exists out, runcmd K fuel buf tf = Done out 0)
  /\ (forall fuel input out, monitor K fuel input tf <> Done out tt).
Proof.
  intros toks. subst toks. repeat apply conj.
  - intros fuel out r. apply runcmd_ret.
  - intros Ht fuel.
    destruct (proj1 (parse_spec buf)) as (argv & E & T);
      [rewrite Ht; cbn; lia|].
    rewrite Ht in T. destruct argv; [|discriminate].
    unfold runcmd. now rewrite (runcmd_with_args _ _ _ _ _ _ E).
  - intros Hmany fuel.
    assert (E : parse buf = Some Too_many)
      by (apply (proj2 (parse_spec buf)); lia).
    unfold runcmd, runcmd_with. now rewrite E.
  - intros t rest Ht Hroom Hnone fuel.
    destruct (runcmd_dispatch K fuel buf tf _ _ Ht Hroom)
      as (argv & L & A & ->).
    rewrite lookup_command_unknown, A; [reflexivity|].
    rewrite A. unfold commands in *.
    repeat (apply Forall_cons in Hnone as [? Hnone]).
    repeat constructor; assumption.
  - intros t rest Ht Hroom [-> | ->] fuel.
    + destruct (runcmd_command K fuel buf tf
                  {| name := "help"; desc := "Display this list of commands";
                     func := Mon_help |} [] (tl commands) rest)
        as (argv & _ & ->);
        [reflexivity | constructor | reflexivity | exact Ht | exact Hroom |].
      cbn [call func]. unfold mon_help. eauto.
    + destruct (runcmd_command K fuel buf tf
                  {| name := "kerninfo";
                     desc := "Display information about the kernel";
                     func := Mon_kerninfo |} (take 1 commands) (drop 2 commands) rest)
        as (argv & _ & ->);
        [reflexivity | other_names | reflexivity | exact Ht | exact Hroom |].
      cbn [call func]. unfold mon_kerninfo. eauto.
  - intros rest Ht Hroom Hargs fuel.
    destruct (runcmd_command K fuel buf tf
                {| name := "showmappings";
                   desc := "Show physical address mappings corresponding to specific virtual addresses";
                   func := Mon_showmappings |}
                (take 3 commands) [] rest)
      as (argv & _ & ->);
      [reflexivity | other_names | reflexivity | exact Ht | exact Hroom |].
    cbn [call func]. unfold mon_showmappings.
    destruct (Z.of_nat (S (length rest)) =? 2) eqn:E2.
    + unfold showmappings. destruct (page_lookup K _); cbn; eauto.
    + replace (Z.of_nat (S (length rest)) =? 3) with false; [eauto|].
      symmetry. apply Z.eqb_neq. lia.
  - intros fuel input out. unfold monitor.
    pose proof (monitor_loop_never_done K fuel input tf) as H.
    destruct (monitor_loop K fuel input tf) as [o []|o|o];
      [now destruct (H o) | discriminate..].
Qed.

Lemma runcmd_returns_zero_witness :
  let K := sample_kernel 0xf010ff38 two_frames in
  (forall fuel, runcmd K fuel (chars "   ") 0 = Done [] 0)
  /\ (forall fuel,
        runcmd K fuel (chars "reboot now") 0
        = Done [Cprintf "Unknown command '%s'\n" [AStr (chars "reboot")]] 0)
  /\ (forall fuel, exists out, runcmd K fuel (chars "help me") 0 = Done out 0)
  /\ (forall fuel, exists out,
        runcmd K fuel (chars "showmappings 0x1000") 0 = Done out 0).
Proof.
  intros K. repeat apply conj.
  - pose proof (runcmd_returns_zero K (chars "   ") 0) as H.
    cbv zeta in H. destruct H as (_ & H & _). apply H. reflexivity.
  - pose proof (runcmd_returns_zero K (chars "reboot now") 0) as H.
    cbv zeta in H. destruct H as (_ & _ & _ & H & _).
    apply (H (chars "reboot") [chars "now"]);
      [reflexivity | cbn; lia | other_names].
  - pose proof (runcmd_returns_zero K (chars "help me") 0) as H.
    cbv zeta in H. destruct H as (_ & _ & _ & _ & H & _).
    apply (H (chars "help") [chars "me"]);
      [reflexivity | cbn; lia | now left].
  - pose proof (runcmd_returns_zero K (chars "showmappings 0x1000") 0) as H.
    cbv zeta in H. destruct H as (_ & _ & _ & _ & _ & H & _).
    apply (H [chars "0x1000"]); [reflexivity | cbn; lia | cbn; lia].
Defined.

(** C9, as stated, fails where a command does not return: on a stack whose
    frame pointers form a cycle, [runcmd] returns nothing on a [backtrace]
    line. *)
Lemma runcmd_returns_zero_counterexample :
  let K := sample_kernel 0xf010ff38 cyclic_frame in
  ~ (exists fuel out r, runcmd K fuel (chars "backtrace") 0 = Done out r).
Proof.
  intros K (fuel & out & r & E).
  destruct (runcmd_command K fuel (chars "backtrace") 0
              {| name := "backtrace";
                 desc := "Display information of the kernel stack";
                 func := Mon_backtrace |}
              (take 2 commands) (drop 3 commands) [])
    as (argv & _ & E');
    [reflexivity | other_names | reflexivity | reflexivity | cbn; lia |].
  rewrite E' in E. cbn [call func] in E. rewrite mon_backtrace_loop in E.
  destruct (backtrace_loop K fuel (wrap32 (read_ebp K))) eqn:El;
    try discriminate.
  apply backtrace_loop_done in El as (fps & frames & L & _).
  change (wrap32 (read_ebp K)) with 0xf010ff38 in L.
  change (mem K) with cyclic_frame in L.
  rewrite cyclic_frame_chain in L. discriminate.
Qed.

(** * Further properties *)

(** ** Arguments of the commands *)

(** What [runcmd] does on a line of at most 15 arguments: the lookup of the
    first, with all of them as [argv]. *)
Lemma runcmd_lookup K fuel buf tf t rest :
  split_ws (c_str buf) = t :: rest -> (length rest < 15)%nat ->
  exists argv,
    map c_str argv = t :: rest
    /\ runcmd K fuel buf tf
       = lookup_command (call K) commands fuel (Z.of_nat (S (length rest)))
           argv tf.
Proof.
  intros Ht Hroom.
  destruct (proj1 (parse_spec buf)) as (offs & E & T).
  { rewrite Ht. cbn. lia. }
  rewrite Ht in T.
  assert (Hlen : length offs = S (length rest))
    by (apply (f_equal length) in T; unfold tokens in T;
        now rewrite length_map in T).
  exists (map (fun p => drop p (blank buf)) offs). split.
  - rewrite map_map. exact T.
  - unfold runcmd. rewrite (runcmd_with_args _ _ _ _ _ _ E), Hlen.
    now destruct offs.
Qed.

Lemma nth_0_c_str (argv : list (list ascii)) t rest :
  map c_str argv = t :: rest -> c_str (nth 0 argv []) = t.
Proof. destruct argv; [discriminate|]. cbn. now intros [= -> _]. Qed.

(** X2.  A line of at most 15 arguments whose first argument is the name of
    an entry of the command table calls the function of that entry, once,
    with the number of arguments of the line as [argc] and pointers to
    their strings, the name first, as [argv]: no entry hides another. *)
Theorem runcmd_calls_command K fuel buf tf c rest :
  In c commands ->
  split_ws (c_str buf) = chars (name c) :: rest -> (length rest < 15)%nat ->
  exists argv,
    map c_str argv = chars (name c) :: rest
    /\ runcmd K fuel buf tf
       = call K (func c) fuel (Z.of_nat (S (length rest))) argv tf.
Proof.
  intros Hc Ht Hroom.
  destruct (runcmd_lookup K fuel buf tf _ _ Ht Hroom) as (argv & A & ->).
  exists argv. split; [exact A|].
  pose proof (nth_0_c_str _ _ _ A) as A0.
  unfold commands in Hc. cbn [In] in Hc.
  destruct Hc as [<-|[<-|[<-|[<-|[]]]]].
  - now apply (lookup_command_found _ _ _ _ _ _ _ [] (drop 1 commands)).
  - apply (lookup_command_found _ _ _ _ _ _ _ (take 1 commands)
             (drop 2 commands));
      [reflexivity | exact A0 | reflexivity | other_names].
  - apply (lookup_command_found _ _ _ _ _ _ _ (take 2 commands)
             (drop 3 commands));
      [reflexivity | exact A0 | reflexivity | other_names].
  - apply (lookup_command_found _ _ _ _ _ _ _ (take 3 commands) []);
      [reflexivity | exact A0 | reflexivity | other_names].
Qed.

Lemma runcmd_calls_command_witness :
  exists argv,
    map c_str argv = [chars "kerninfo"; chars "-v"]
    /\ runcmd (sample_kernel 0 zero_memory) 0 (chars " kerninfo  -v") 0
       = mon_kerninfo (sample_kernel 0 zero_memory) 2 argv 0.
Proof.
  apply (runcmd_calls_command (sample_kernel 0 zero_memory) 0
           (chars " kerninfo  -v") 0
           {| name := "kerninfo";
              desc := "Display information about the kernel";
              func := Mon_kerninfo |} [chars "-v"]).
  - right. left. reflexivity.
  - reflexivity.
  - cbn. lia.
Defined.

(** X1.  [help] and [kerninfo] take no notice of their arguments: a line
    of at most 15 arguments that starts with one of these names does what
    the name alone does.  For [help] that is one line for each entry of the
    command table, in the order of the table, with the name and the
    description of the entry. *)
Theorem runcmd_ignores_arguments K fuel buf tf cmd rest :
  In cmd ["help"; "kerninfo"]%string ->
  split_ws (c_str buf) = chars cmd :: rest -> (length rest < 15)%nat ->
  runcmd K fuel buf tf = runcmd K fuel (chars cmd) tf
  /\ (cmd = "help"%string ->
      runcmd K fuel buf tf
      = Done (map (fun c => Cprintf "%s - %s\n"
                              [AStr (chars (name c)); AStr (chars (desc c))])
                  commands) 0).
Proof.
  intros Hcmd Ht Hroom. cbn [In] in Hcmd.
  destruct Hcmd as [<-|[<-|[]]].
  - destruct (runcmd_command K fuel buf tf
                {| name := "help"; desc := "Display this list of commands";
                   func := Mon_help |} [] (drop 1 commands) rest)
      as (argv & _ & ->);
      [reflexivity | constructor | reflexivity | exact Ht | exact Hroom |].
    split; reflexivity.
  - destruct (runcmd_command K fuel buf tf
                {| name := "kerninfo";
                   desc := "Display information about the kernel";
                   func := Mon_kerninfo |}
                (take 1 commands) (drop 2 commands) rest)
      as (argv & _ & ->);
      [reflexivity | other_names | reflexivity | exact Ht | exact Hroom |].
    split; [reflexivity | discriminate].
Qed.

Lemma runcmd_ignores_arguments_witness :
  runcmd (sample_kernel 0 zero_memory) 0 (chars "kerninfo 1 2	3") 0
  = runcmd (sample_kernel 0 zero_memory) 0 (chars "kerninfo") 0.
Proof.
  apply (runcmd_ignores_arguments (sample_kernel 0 zero_memory) 0
           (chars "kerninfo 1 2	3") 0 "kerninfo"
           [chars "1"; chars "2"; chars "3"]).
  - right. left. reflexivity.
  - reflexivity.
  - cbn. lia.
Defined.

(** X3.  [showmappings] with no address or with more than two does nothing:
    no translation is made, nothing is printed, not even a word on how to
    use it, and 0 is returned. *)
Theorem runcmd_showmappings_usage K fuel buf tf rest :
  split_ws (c_str buf) = chars "showmappings" :: rest ->
  (length rest < 15)%nat -> length rest <> 1%nat -> length rest <> 2%nat ->
  runcmd K fuel buf tf = Done [] 0.
Proof.
  intros Ht Hroom H1 H2.
  destruct (runcmd_command K fuel buf tf
              {| name := "showmappings";
                 desc := "Show physical address mappings corresponding to specific virtual addresses";
                 func := Mon_showmappings |}
              (take 3 commands) [] rest)
    as (argv & _ & ->);
    [reflexivity | other_names | reflexivity | exact Ht | exact Hroom |].
  cbn [call func]. unfold mon_showmappings.
  replace (Z.of_nat (S (length rest)) =? 2) with false
    by (symmetry; apply Z.eqb_neq; lia).
  replace (Z.of_nat (S (length rest)) =? 3) with false
    by (symmetry; apply Z.eqb_neq; lia).
  reflexivity.
Qed.

Lemma runcmd_showmappings_usage_witness :
  runcmd (sample_kernel 0 zero_memory) 9
    (chars "showmappings 0x1000 0x2000 0x3000") 0 = Done [] 0
  /\ runcmd (sample_kernel 0 zero_memory) 9 (chars "showmappings") 0
     = Done [] 0.
Proof.
  split.
  - apply (runcmd_showmappings_usage (sample_kernel 0 zero_memory) 9
             (chars "showmappings 0x1000 0x2000 0x3000") 0
             [chars "0x1000"; chars "0x2000"; chars "0x3000"]);
      [reflexivity | cbn; lia | cbn; lia | cbn; lia].
  - apply (runcmd_showmappings_usage (sample_kernel 0 zero_memory) 9
             (chars "showmappings") 0 []);
      [reflexivity | cbn; lia | cbn; lia | cbn; lia].
Defined.

(** ** Addresses on the command line *)

Lemma c_str_drop n : forall p,
  (n <= length (c_str p))%nat -> c_str (drop n p) = drop n (c_str p).
Proof.
  induction n as [|n IH]; intros p Hn; [now rewrite !drop_0|].
  destruct p as [|c p]; [cbn in Hn; lia|].
  cbn [c_str] in *. destruct (is_nul c); cbn [length] in Hn; [lia|].
  cbn [drop]. apply IH. lia.
Qed.

(** An argument of two to ten characters parses to the value of what
    follows its first two characters, whatever comes after the argument in
    the buffer. *)
Lemma hexaddr2decaddr_arg p :
  (2 <= length (c_str p) <= 10)%nat ->
  hexaddr2decaddr p = wrap_int (digits_value (drop 2 (c_str p))).
Proof.
  intros H. rewrite hexaddr2decaddr_value.
  - now rewrite c_str_drop by lia.
  - rewrite strlen_c_str, c_str_drop, length_drop by lia. lia.
Qed.

Lemma showmappings_emit K va :
  emit (printed (showmappings K va)) (Done [] 0) = showmappings K va.
Proof. unfold showmappings. now destruct (page_lookup K va). Qed.

Lemma runcmd_showmappings_args K fuel buf tf rest :
  split_ws (c_str buf) = chars "showmappings" :: rest ->
  (length rest < 15)%nat ->
  exists argv,
    map c_str argv = chars "showmappings" :: rest
    /\ runcmd K fuel buf tf
       = mon_showmappings K fuel (Z.of_nat (S (length rest))) argv tf.
Proof.
  intros Ht Hroom.
  destruct (runcmd_lookup K fuel buf tf _ _ Ht Hroom) as (argv & A & ->).
  exists argv. split; [exact A|].
  change (mon_showmappings K fuel ?n argv tf)
    with (call K Mon_showmappings fuel n argv tf).
  apply (lookup_command_found _ _ _ _ _ _
           {| name := "showmappings";
              desc := "Show physical address mappings corresponding to specific virtual addresses";
              func := Mon_showmappings |} (take 3 commands) []);
    [reflexivity | now apply nth_0_c_str with rest | reflexivity
     | other_names].
Qed.

Lemma sweep_pages_top pgsize low high :
  0 < pgsize -> 0 <= low < 2 ^ 32 -> high + pgsize < 2 ^ 32 ->
  low + Z.of_nat (sweep_pages pgsize low high) * pgsize < 2 ^ 32.
Proof.
  intros Hp Hlow Hhigh. unfold sweep_pages.
  destruct (Z.leb_spec low high) as [Hle|Hgt]; [|cbn; lia].
  assert (0 <= (high - low) / pgsize) by (apply Z.div_pos; lia).
  rewrite Z2Nat.id by lia.
  pose proof (Z.mul_div_le (high - low) pgsize Hp). lia.
Qed.

(** X4.  [showmappings] with one address of two to ten characters makes
    one translation, of the address whose digits follow the first two
    characters of the argument, and prints what [showmappings] prints for
    it: the line [showmappings] followed by a literal of [n] looks up
    [n]. *)
Theorem runcmd_showmappings_address K fuel buf tf a :
  split_ws (c_str buf) = [chars "showmappings"; a] ->
  (2 <= length a <= 10)%nat ->
  runcmd K fuel buf tf = showmappings K (wrap32 (digits_value (drop 2 a)))
  /\ (forall p1 p2 upper width n,
        a = hex_literal p1 p2 upper width n ->
        0 <= n < 2 ^ 32 -> (hex_width n <= width)%nat ->
        runcmd K fuel buf tf = showmappings K n).
Proof.
  intros Ht Ha.
  destruct (runcmd_showmappings_args K fuel buf tf _ Ht) as (argv & A & E);
    [cbn; lia|].
  destruct argv as [|cmd [|arg [|? ?]]]; try discriminate.
  injection A as _ A.
  assert (R : runcmd K fuel buf tf
              = showmappings K (wrap32 (digits_value (drop 2 a)))).
  { rewrite E. unfold mon_showmappings. cbn [length Z.of_nat Z.eqb nth].
    change (Z.of_nat 2 =? 2) with true. cbv iota.
    rewrite hexaddr2decaddr_arg by (rewrite A; lia).
    now rewrite A, wrap32_wrap_int, showmappings_emit. }
  split; [exact R|].
  intros p1 p2 upper width n -> Hn Hw. rewrite R. f_equal.
  unfold hex_literal in *. change (drop 2 (p1 :: p2 :: ?l)) with l.
  cbn [length] in Ha. rewrite hex_digits_length in Ha.
  rewrite digits_value_hex_digits by lia.
  rewrite Z.mod_small; [now apply wrap32_small|].
  split; [lia|].
  eapply Z.lt_le_trans; [apply hex_width_bound; lia|].
  apply Z.pow_le_mono_r; lia.
Qed.

Lemma runcmd_showmappings_address_witness :
  runcmd (sample_kernel 0 zero_memory) 0 (chars "showmappings 0xAB000") 0
  = Done [Cprintf "No physical page mapping at %08p\n" [AInt 0xAB000]] 0.
Proof.
  apply (proj2 (runcmd_showmappings_address (sample_kernel 0 zero_memory) 0
                  (chars "showmappings 0xAB000") 0 (chars "0xAB000")
                  eq_refl ltac:(cbn; lia))
           "0"%char "x"%char true 5%nat 0xAB000);
    [reflexivity | lia | vm_compute; lia].
Defined.

(** X5.  [showmappings] with two addresses, the second at least a page
    below the top of the address space: the sweep returns 0 after
    translating [low], [low + PGSIZE], ... as long as they are at most
    [high], each once and in this order, [low] as it was typed and not
    rounded to a page; nothing when [low] is above [high], [low] alone when
    they are equal, and [k + 1] addresses when [high] is [k] pages above
    [low]. *)
Theorem runcmd_showmappings_sweep K fuel buf tf a b :
  split_ws (c_str buf) = [chars "showmappings"; a; b] ->
  (2 <= length a <= 10)%nat -> (2 <= length b <= 10)%nat ->
  let low := wrap32 (digits_value (drop 2 a)) in
  let high := wrap32 (digits_value (drop 2 b)) in
  let n := sweep_pages (PGSIZE K) low high in
  0 < PGSIZE K -> high + PGSIZE K < 2 ^ 32 -> (n <= fuel)%nat ->
  (exists out,
     runcmd K fuel buf tf = Done out 0
     /\ translated out = sweep_addresses (PGSIZE K) low n)
  /\ (high < low -> n = 0%nat)
  /\ (low = high -> n = 1%nat)
  /\ (forall k, 0 <= k -> high = low + k * PGSIZE K -> n = Z.to_nat (k + 1)).
Proof.
  intros Ht Ha Hb low high n Hp Htop Hfuel.
  pose proof (wrap32_range (digits_value (drop 2 a))) as Hlow. fold low in Hlow.
  split; [|repeat apply conj].
  - destruct (runcmd_showmappings_args K fuel buf tf _ Ht)
      as (argv & A & E); [cbn; lia|].
    destruct argv as [|cmd [|arg1 [|arg2 [|? ?]]]]; try discriminate.
    injection A as _ A1 A2.
    rewrite E, mon_showmappings_range. cbn [nth].
    rewrite !hexaddr2decaddr_arg by (rewrite ?A1, ?A2; lia).
    rewrite A1, A2, !wrap32_wrap_int. fold low high.
    destruct (showmappings_loop_in_range K high n low fuel)
      as (out & El & T);
      [assumption | lia | now apply sweep_pages_top | reflexivity |].
    exists out.
    replace (n <=? fuel)%nat with true in El
      by (symmetry; now apply Nat.leb_le).
    split; [exact El|]. now rewrite T, Nat.min_l.
  - intros Hlt. subst n. unfold sweep_pages.
    now replace (low <=? high) with false by (symmetry; apply Z.leb_gt; lia).
  - intros Heq. subst n. unfold sweep_pages. rewrite <- Heq, Z.leb_refl.
    now rewrite Z.sub_diag, Z.div_0_l by lia.
  - intros k Hk Hhigh. subst n. unfold sweep_pages.
    replace (low <=? high) with true by (symmetry; apply Z.leb_le; nia).
    replace (high - low) with (k * PGSIZE K) by lia.
    now rewrite Z.div_mul by lia.
Qed.

Lemma runcmd_showmappings_sweep_witness :
  exists out,
    runcmd (sample_kernel 0 zero_memory) 3
      (chars "showmappings 0x1abc 0x3abc") 0 = Done out 0
    /\ translated out = [0x1abc; 0x2abc; 0x3abc].
Proof.
  apply (runcmd_showmappings_sweep (sample_kernel 0 zero_memory) 3
           (chars "showmappings 0x1abc 0x3abc") 0
           (chars "0x1abc") (chars "0x3abc"));
    [reflexivity | cbn; lia | cbn; lia | reflexivity | reflexivity
     | vm_compute; lia].
Defined.

(** ** More on the address parser *)

Lemma hexaddr2decaddr_loop_map (f : ascii -> ascii) newaddr len n :
  (forall c, char2int (f c) = char2int c) -> f NUL = NUL ->
  forall i result,
    hexaddr2decaddr_loop n (map f newaddr) len i result
    = hexaddr2decaddr_loop n newaddr len i result.
Proof.
  intros Hf Hnul. induction n as [|n IH]; intros i result; [reflexivity|].
  cbn [hexaddr2decaddr_loop].
  rewrite <- Hnul at 1. now rewrite map_nth, Hf, IH.
Qed.

Lemma strlen_map (f : ascii -> ascii) p :
  (forall c, is_nul (f c) = is_nul c) -> strlen (map f p) = strlen p.
Proof.
  intros Hf. induction p as [|c p IH]; [reflexivity|]. cbn.
  rewrite Hf. destruct (is_nul c); congruence.
Qed.

Lemma char2int_toupper c : char2int (toupper c) = char2int c.
Proof.
  destruct c as [b0 b1 b2 b3 b4 b5 b6 b7].
  destruct b0, b1, b2, b3, b4, b5, b6, b7; reflexivity.
Qed.

Lemma is_nul_toupper c : is_nul (toupper c) = is_nul c.
Proof.
  destruct c as [b0 b1 b2 b3 b4 b5 b6 b7].
  destruct b0, b1, b2, b3, b4, b5, b6, b7; reflexivity.
Qed.

(** X6.  The parser does not tell the case of letters: a string parses to
    what it parses to with its lowercase letters in uppercase. *)
Theorem hexaddr2decaddr_case s :
  hexaddr2decaddr (map toupper s) = hexaddr2decaddr s.
Proof.
  unfold hexaddr2decaddr.
  rewrite skipn_map, (strlen_map toupper) by apply is_nul_toupper.
  apply hexaddr2decaddr_loop_map; [apply char2int_toupper | reflexivity].
Qed.

Lemma digits_value_zeros k s :
  digits_value (replicate k "0"%char ++ s) = digits_value s.
Proof.
  induction k as [|k IH]; [reflexivity|].
  cbn [replicate app digits_value]. rewrite IH.
  change (char2int "0") with 0. lia.
Qed.

Lemma c_str_zeros k s :
  c_str (replicate k "0"%char ++ s) = replicate k "0"%char ++ c_str s.
Proof. induction k as [|k IH]; [reflexivity|]. cbn. now rewrite IH. Qed.

(** X7.  Zeros in front of the digits do not change the address, as long
    as there are at most eight characters after the prefix. *)
Theorem hexaddr2decaddr_leading_zeros p1 p2 k s :
  (k + strlen s <= 8)%nat ->
  hexaddr2decaddr (p1 :: p2 :: replicate k "0"%char ++ s)
  = hexaddr2decaddr (p1 :: p2 :: s).
Proof.
  intros H. rewrite !hexaddr2decaddr_value.
  - change (drop 2 (p1 :: p2 :: ?l)) with l.
    now rewrite c_str_zeros, digits_value_zeros.
  - change (drop 2 (p1 :: p2 :: ?l)) with l. lia.
  - change (drop 2 (p1 :: p2 :: ?l)) with l.
    rewrite strlen_c_str, c_str_zeros, length_app, length_replicate.
    rewrite <- strlen_c_str. lia.
Qed.

Lemma hexaddr2decaddr_leading_zeros_witness :
  hexaddr2decaddr (chars "0x0001f00") = hexaddr2decaddr (chars "0x1f00").
Proof.
  apply (hexaddr2decaddr_leading_zeros "0" "x" 3 (chars "1f00")).
  cbn. lia.
Defined.

(** ** The command buffer and the arguments *)

(** A parse that ends with arguments has blanked the whole line. *)
Lemma parse_args buf line argv :
  parse buf = Some (Args line argv) ->
  line = blank buf
  /\ tokens line argv = split_ws (c_str buf)
  /\ (length (split_ws (c_str buf)) <= 15)%nat.
Proof.
  intros E.
  destruct (Nat.le_gt_cases (length (split_ws (c_str buf))) 15) as [H|H].
  - destruct (proj1 (parse_spec buf) H) as (argv' & E' & T).
    rewrite E' in E. injection E as <- <-. now repeat split.
  - rewrite (proj2 (parse_spec buf) H) in E. discriminate.
Qed.

Lemma blank_length s : length (blank s) = length s.
Proof.
  induction s as [|c s IH]; [reflexivity|]. cbn [blank].
  destruct (is_nul c); cbn [length]; congruence.
Qed.

Lemma blank_lookup s : forall i c,
  s !! i = Some c ->
  blank s !! i
  = Some (if (i <? strlen s)%nat && is_space c then NUL else c).
Proof.
  induction s as [|d s IH]; intros i c Hi; [discriminate|].
  cbn [blank strlen]. destruct (is_nul d) eqn:Hd.
  - rewrite Hi. now destruct i.
  - destruct i as [|i]; cbn in Hi |- *.
    + now injection Hi as ->.
    + now apply IH.
Qed.

(** X8.  Parsing writes into the line only to end the arguments: the
    buffer keeps its length, every whitespace character before the
    terminator of the line is overwritten with a terminator, and every
    other character, the ones after the terminator too, is left as it
    was. *)
Theorem parse_overwrites_separators buf line argv :
  parse buf = Some (Args line argv) ->
  length line = length buf
  /\ (forall i c,
        buf !! i = Some c ->
        line !! i
        = Some (if (i <? strlen buf)%nat && is_space c then NUL else c)).
Proof.
  intros E. destruct (parse_args _ _ _ E) as (-> & _ & _).
  split; [apply blank_length | apply blank_lookup].
Qed.

Lemma parse_overwrites_separators_witness :
  length (blank (chars " ls -l")) = 6%nat
  /\ blank (chars " ls -l") !! 3%nat = Some NUL
  /\ blank (chars " ls -l") !! 4%nat = Some "-"%char.
Proof.
  destruct (parse_overwrites_separators (chars " ls -l")
              (blank (chars " ls -l")) [1; 4]%nat eq_refl) as [L M].
  split; [exact L|]. split.
  - apply (M 3%nat " "%char). reflexivity.
  - apply (M 4%nat "-"%char). reflexivity.
Defined.

Lemma c_str_not_nul p : Forall (fun c => is_nul c = false) (c_str p).
Proof.
  induction p as [|c p IH]; cbn [c_str]; [constructor|].
  destruct (is_nul c) eqn:E; now constructor.
Qed.

Lemma fields_arg_chars s :
  Forall (fun c => is_nul c = false) s ->
  Forall (Forall (fun c => is_arg_char c = true)) (fields s).
Proof.
  induction 1 as [|c s Hc Hs IH]; cbn [fields]; [now repeat constructor|].
  destruct (is_space c) eqn:E; [now constructor|].
  assert (Harg : is_arg_char c = true)
    by (unfold is_arg_char; now rewrite Hc, E).
  destruct (fields s) as [|f fs]; [now repeat constructor|].
  apply Forall_cons in IH as [Hf Hfs].
  now repeat constructor.
Qed.

Lemma split_ws_words s :
  Forall (fun c => is_nul c = false) s -> Forall is_word (split_ws s).
Proof.
  intros H. apply fields_arg_chars in H. unfold split_ws.
  induction H as [|f fs Hf Hfs IH]; cbn [List.filter]; [constructor|].
  destruct f as [|c f]; cbn [nonempty]; [exact IH|].
  constructor; [|exact IH]. now split.
Qed.

(** X9.  The arguments a parse ends with are at most 15, each a string of
    at least one character with no whitespace in it, and each pointer
    points into the line. *)
Theorem parse_arguments buf line argv :
  parse buf = Some (Args line argv) ->
  (length argv <= 15)%nat
  /\ Forall is_word (tokens line argv)
  /\ Forall (fun p => (p < length buf)%nat) argv.
Proof.
  intros E. destruct (parse_args _ _ _ E) as (-> & T & Hroom).
  assert (W : Forall is_word (tokens (blank buf) argv))
    by (rewrite T; apply split_ws_words, c_str_not_nul).
  repeat split.
  - apply (f_equal length) in T. unfold tokens in T.
    rewrite length_map in T. lia.
  - exact W.
  - unfold tokens in W.
    pose proof (proj1 (List.Forall_map _ _ _) W) as W'.
    eapply Forall_impl; [exact W'|]. cbn beta. intros p [Hne _].
    destruct (Nat.lt_ge_cases p (length buf)) as [Hlt|Hge]; [exact Hlt|].
    rewrite drop_ge in Hne by (rewrite blank_length; lia). now destruct Hne.
Qed.

Lemma parse_arguments_witness :
  (length [1; 4]%nat <= 15)%nat
  /\ Forall is_word (tokens (blank (chars " ls -l")) [1; 4]%nat)
  /\ Forall (fun p => (p < 6)%nat) [1; 4]%nat.
Proof.
  exact (parse_arguments (chars " ls -l") (blank (chars " ls -l"))
           [1; 4]%nat eq_refl).
Defined.

Lemma c_str_id s : Forall (fun c => is_nul c = false) s -> c_str s = s.
Proof.
  intros H. rewrite <- (app_nil_r s) at 1.
  rewrite c_str_app by assumption. apply app_nil_r.
Qed.

Lemma join_not_nul words :
  Forall is_word words -> Forall (fun c => is_nul c = false) (join words).
Proof.
  induction 1 as [|w words [_ Hw] Hwords IH]; cbn [join]; [constructor|].
  assert (Forall (fun c => is_nul c = false) w)
    by (eapply Forall_impl; [exact Hw | apply is_arg_char_not_nul]).
  destruct words; [assumption|].
  apply Forall_app. split; [assumption|]. now constructor.
Qed.

Lemma split_ws_join words : Forall is_word words -> split_ws (join words) = words.
Proof.
  induction 1 as [|w words [Hne Hw] Hwords IH]; cbn [join]; [reflexivity|].
  assert (Forall (fun c => is_space c = false) w)
    by (eapply Forall_impl; [exact Hw | apply is_arg_char_not_space]).
  destruct words as [|w' words].
  - rewrite <- (app_nil_r w) at 1.
    now rewrite split_ws_arg by (assumption || now left).
  - rewrite split_ws_arg by (assumption || now right).
    change (" "%char :: join (w' :: words))
      with ([" "%char] ++ join (w' :: words)).
    rewrite split_ws_spaces by now repeat constructor.
    now rewrite IH.
Qed.

(** X10.  Up to 15 words, none empty and none with whitespace or a
    terminator in it, put on a line with one space between them, parse to
    these words in this order. *)
Theorem parse_join words :
  (length words <= 15)%nat -> Forall is_word words ->
  exists line argv,
    parse (join words) = Some (Args line argv) /\ tokens line argv = words.
Proof.
  intros Hlen Hwords.
  pose proof (c_str_id _ (join_not_nul _ Hwords)) as Hstr.
  pose proof (split_ws_join _ Hwords) as Hsplit.
  destruct (proj1 (parse_spec (join words))) as (argv & E & T).
  { now rewrite Hstr, Hsplit. }
  exists (blank (join words)), argv. split; [exact E|].
  now rewrite T, Hstr.
Qed.

Lemma parse_join_witness :
  exists line argv,
    parse (chars "showmappings 0x1000 0x3000") = Some (Args line argv)
    /\ tokens line argv
       = [chars "showmappings"; chars "0x1000"; chars "0x3000"].
Proof.
  apply (parse_join [chars "showmappings"; chars "0x1000"; chars "0x3000"]).
  - cbn. lia.
  - repeat constructor; discriminate.
Defined.

(** ** The session *)

Lemma monitor_loop_serves K fuel tf input :
  (forall buf, In (Some buf) input ->
               exists out r, runcmd K fuel buf tf = Done out r) ->
  monitor_loop K fuel input tf
  = More (flat_map (line_output K fuel tf) input).
Proof.
  induction input as [|[buf|] input IH]; intros H; cbn [monitor_loop flat_map].
  - reflexivity.
  - destruct (H buf (or_introl eq_refl)) as (out & r & E).
    rewrite (runcmd_ret _ _ _ _ _ _ E) in E.
    cbn [line_output]. rewrite E. cbn [Z.ltb Z.compare printed].
    rewrite IH by (intros b Hb; apply H; now right). reflexivity.
  - cbn [line_output app]. apply IH. intros b Hb. apply H. now right.
Qed.

(** X11.  As long as every command returns, [monitor] prints its two lines
    of welcome, the trap frame if it got one, and then what the command of
    each line prints, line after line in the order they are read, a read
    without a line giving nothing; and it is still reading after the last
    of them. *)
Theorem monitor_serves_lines K fuel input tf :
  (forall buf, In (Some buf) input ->
               exists out r, runcmd K fuel buf tf = Done out r) ->
  monitor K fuel input tf
  = More (banner tf ++ flat_map (line_output K fuel tf) input).
Proof.
  intros H. unfold monitor. now rewrite monitor_loop_serves.
Qed.

Lemma monitor_serves_lines_witness :
  monitor (sample_kernel 0 zero_memory) 0
    [Some (chars "showmappings 0x1000"); None; Some (chars "halt")] 7
  = More [Cprintf "Welcome to the JOS kernel monitor!\n" [];
          Cprintf "Type 'help' for a list of commands.\n" [];
          Print_trapframe 7;
          Cprintf "va: %08p    " [AInt 0x1000];
          Cprintf "pa: %08p\n" [AInt 0x2000];
          Cprintf "Unknown command '%s'\n" [AStr (chars "halt")]].
Proof.
  apply (monitor_serves_lines (sample_kernel 0 zero_memory) 0
           [Some (chars "showmappings 0x1000"); None; Some (chars "halt")] 7).
  intros buf [H|[H|[H|[]]]]; try discriminate;
    injection H as <-; eexists _, _; vm_compute; reflexivity.
Defined.

(** ** Stacks that close on themselves *)

Lemma ring_cons m first ebp fp fps :
  ring m first ebp (fp :: fps) = true ->
  ebp = fp /\ fp <> 0
  /\ exists next, load32 m fp = Some next /\ ring m first next fps = true.
Proof.
  cbn [ring]. intros R.
  apply andb_prop in R as [R Hrest]. apply andb_prop in R as [E Hnz].
  apply Z.eqb_eq in E. apply negb_true_iff, Z.eqb_neq in Hnz.
  destruct (load32 m fp) as [next|]; [|discriminate]. eauto.
Qed.

Lemma backtrace_loop_ring K first fps : forall ebp frames n,
  ring (mem K) first ebp fps = true ->
  frames_at (mem K) fps = Some frames ->
  backtrace_loop K (length fps + n) ebp
  = emit (flat_map (frame_record K) frames) (backtrace_loop K n first).
Proof.
  induction fps as [|fp fps IH]; intros ebp frames n R F.
  - cbn in R. apply Z.eqb_eq in R. subst ebp. injection F as <-.
    cbn [length flat_map Nat.add]. now rewrite emit_nil.
  - apply ring_cons in R as (-> & Hnz & next & Hnext & R).
    apply frames_at_cons in F as (f & fs & -> & Hf & Hfs).
    cbn [length flat_map Nat.add].
    rewrite (backtrace_loop_step _ _ _ _ _ Hnz Hf Hnext).
    now rewrite (IH _ _ n R Hfs), emit_app.
Qed.

(** X12.  On a stack whose frames close a ring, the last one saving the
    frame pointer of the first, and where the return address and the five
    words above it can be read in every frame, [mon_backtrace] prints the
    records of the frames of the ring in turn, from the one the frame
    pointer register points to, and then the same records again, time after
    time: after [k] rounds it has printed them [k] times and is still
    going. *)
Theorem backtrace_goes_round K fps frames k argc argv tf :
  let ebp := wrap32 (read_ebp K) in
  ring (mem K) ebp ebp (ebp :: fps) = true ->
  frames_at (mem K) (ebp :: fps) = Some frames ->
  mon_backtrace K (k * S (length fps)) argc argv tf
  = More (Cprintf "Stack backtrace:\n" []
          :: concat (replicate k (flat_map (frame_record K) frames)))
  /\ map fr_ebp frames = ebp :: fps
  /\ Forall (fun f => load32 (mem K) (fr_ebp f + 4) = Some (fr_eip f)
                      /\ read_words (mem K) (fr_ebp f + 8) 5
                         = Some (fr_args f)) frames.
Proof.
  intros ebp R F. split; [|exact (frames_at_words _ _ _ F)].
  rewrite mon_backtrace_loop. fold ebp.
  assert (Hnz : ebp <> 0) by (now apply ring_cons in R as (_ & Hnz & _)).
  assert (L : backtrace_loop K (k * S (length fps)) ebp
              = More (concat (replicate k
                                (flat_map (frame_record K) frames)))).
  { induction k as [|k IH].
    - now apply backtrace_loop_spent.
    - change (S k * S (length fps))%nat
        with (length (ebp :: fps) + k * S (length fps))%nat.
      rewrite (backtrace_loop_ring K ebp (ebp :: fps) ebp frames _ R F), IH.
      reflexivity. }
  now rewrite L.
Qed.

Lemma backtrace_goes_round_witness :
  let K := sample_kernel 0xf010ff38 two_frame_ring in
  let f1 := {| fr_ebp := 0xf010ff38; fr_eip := 0xf0100068;
               fr_args := [0; 0; 0; 0; 0] |} in
  let f2 := {| fr_ebp := 0xf010ff58; fr_eip := 0xf010003e;
               fr_args := [0; 0; 0; 0; 0] |} in
  mon_backtrace K 4 1 [chars "backtrace"] 0
  = More (Cprintf "Stack backtrace:\n" []
          :: frame_record K f1 ++ frame_record K f2
          ++ frame_record K f1 ++ frame_record K f2).
Proof.
  intros K f1 f2.
  pose proof (backtrace_goes_round K [0xf010ff58] [f1; f2] 2 1
                [chars "backtrace"] 0) as H.
  cbv zeta in H.
  destruct H as [E _]; [vm_compute; reflexivity | vm_compute; reflexivity |].
  refine (eq_trans E _). vm_compute. reflexivity.
Defined.
